(** * feed-bot/telegram-scraper.py: the ingestion engine of OptimizedTelegramScraper

    A shallow embedding of the scraper's persistence layer, translation step,
    media download manager, checkpoint store and channel coordinator, with
    the properties of the design specification stated and settled on it.

    Conventions.
    - A Python [str] is a list of Unicode code points ([N]); [len] is
      [length], concatenation is [++], the empty string is falsy.
    - A Python [int] is a [Z]; [None] is [None] of an [option].
    - [self.state] is the record [ScraperState]; its ["channels"] dict is a
      [gmap] from channel id to cursor.
    - A sqlite table is the list of its rows in insertion order.
    - The outside world (Telegram transport, AI endpoint) is data: what a
      call returns or whether it raises is read off the input.

    Left out: console output; the remote mirror (Supabase), whose calls
    catch their own exceptions and never touch the local store; the channel
    profile picture, whose download catches its own exceptions; failures of
    sqlite and of the file system other than those of [save_state]. *)

From Stdlib Require Import ZArith NArith List Lia Bool String Ascii DecimalString.
From stdpp Require Import base option list gmap strings numbers.

Local Open Scope Z_scope.

(** ** Python strings *)

Abbreviation str := (list N).

Fixpoint lit (s : string) : str :=
  match s with
  | EmptyString => []
  | String c s' => N_of_ascii c :: lit s'
  end.

(** [f"{n}"] for an int. *)
Definition str_of_int (n : Z) : str := lit (NilZero.string_of_int (Z.to_int n)).

(** [sep.join(parts)] *)
Fixpoint join (sep : str) (parts : list str) : str :=
  match parts with
  | [] => []
  | [p] => p
  | p :: rest => p ++ sep ++ join sep rest
  end.

(** [str.isspace] on one code point (CPython's [_PyUnicode_IsWhitespace]). *)
Definition isspace (c : N) : bool :=
  (((9 <=? c) && (c <=? 13)) || ((28 <=? c) && (c <=? 32))
   || (c =? 133) || (c =? 160) || (c =? 5760)
   || ((8192 <=? c) && (c <=? 8202)) || (c =? 8232) || (c =? 8233)
   || (c =? 8239) || (c =? 8287) || (c =? 12288))%N.

Fixpoint lstrip (s : str) : str :=
  match s with
  | c :: s' => if isspace c then lstrip s' else s
  | [] => []
  end.

(** [s.strip()] *)
Definition strip (s : str) : str := rev (lstrip (rev (lstrip s))).

(** Truthiness of a [str] and of an [Optional[str]]. *)
Definition truthy (s : str) : bool :=
  match s with [] => false | _ => true end.

Definition truthy_opt (o : option str) : bool :=
  match o with Some s => truthy s | None => false end.

(** ** The data model *)

(** [@dataclass MessageData] *)
Record MessageData := {
  message_id : Z;
  date : str;
  sender_id : option Z;
  first_name : option str;
  last_name : option str;
  username : option str;
  message : str;
  media_type : option str;
  media_path : option str;
  reply_to : option Z;
  post_author : option str;
  views : option Z;
  forwards : option Z;
  reactions : option str;
}.

(** A row of the [messages] table: the [id INTEGER PRIMARY KEY] assigned by
    sqlite and the fourteen columns inserted by [batch_insert_messages]. *)
Record Row := {
  id : Z;
  data : MessageData;
}.

Abbreviation Table := (list Row).

Definition set_media_path (p : option str) (m : MessageData) : MessageData :=
  {| message_id := message_id m; date := date m; sender_id := sender_id m;
     first_name := first_name m; last_name := last_name m;
     username := username m; message := message m;
     media_type := media_type m; media_path := p; reply_to := reply_to m;
     post_author := post_author m; views := views m;
     forwards := forwards m; reactions := reactions m |}.

(** ** The local store (sqlite) *)

(** Whether a row with this [message_id] exists ([message_id INTEGER UNIQUE]). *)
Definition has_message (t : Table) (mid : Z) : bool :=
  existsb (fun r => message_id (data r) =? mid) t.

(** The rowid sqlite gives to a row inserted without an explicit [id]: one
    more than the largest rowid in the table. *)
Definition next_rowid (t : Table) : Z :=
  1 + fold_right (fun r acc => Z.max (id r) acc) 0 t.

(** One [INSERT OR IGNORE INTO messages (message_id, ...) VALUES (...)]. *)
Definition insert_or_ignore (t : Table) (m : MessageData) : Table :=
  if has_message t (message_id m) then t
  else t ++ [{| id := next_rowid t; data := m |}].

(** [conn.executemany] of the statement over the batch. *)
Definition executemany_insert (t : Table) (msgs : list MessageData) : Table :=
  fold_left insert_or_ignore msgs t.

(** [UPDATE messages SET media_path = ? WHERE message_id = ?] *)
Definition update_media_path_row (mid : Z) (p : str) (r : Row) : Row :=
  if message_id (data r) =? mid
  then {| id := id r; data := set_media_path (Some p) (data r) |}
  else r.

Definition execute_update_media_path (t : Table) (mid : Z) (p : str) : Table :=
  map (update_media_path_row mid p) t.

(** [WHERE media_type IS NOT NULL AND media_type != "MessageMediaWebPage"
     AND media_path IS NULL] *)
Definition missing_media (r : Row) : bool :=
  match media_type (data r), media_path (data r) with
  | Some ty, None => negb (bool_decide (ty = lit "MessageMediaWebPage"))
  | _, _ => false
  end.

(** [SELECT message_id FROM messages WHERE ...] of [rescrape_media]. *)
Definition select_missing_media (t : Table) : list Z :=
  map (fun r => message_id (data r)) (List.filter missing_media t).

(** ** Exceptions

    A computation that may raise: [Ok v] is a normal return, [Raise e] an
    exception of the named class propagating to the caller. *)

Inductive exn :=
| IndexError
| AttributeError
| FloodWaitError (seconds : Z)
| TransportError.

Inductive result (A : Type) :=
| Ok (v : A)
| Raise (e : exn).
Arguments Ok {A} v.
Arguments Raise {A} e.

Definition bind {A B} (r : result A) (k : A -> result B) : result B :=
  match r with
  | Ok v => k v
  | Raise e => Raise e
  end.

Notation "'let*' x := r 'in' k" := (bind r (fun x => k))
  (at level 10, x name, r at level 100, k at level 200).

(** [try: body  except Exception: handler] *)
Definition try_except {A} (body : result A) (handler : exn -> result A) : result A :=
  match body with
  | Ok v => Ok v
  | Raise e => handler e
  end.

(** ** The translation step *)

(** [response.choices[i].message.content] of a chat completion: the content
    of each choice, [None] for a null content. *)
Abbreviation ChatCompletion := (list (option str)).

(** The configured AI client: [self.ai_model], [self.target_lang] and the
    behaviour of [chat.completions.create] on a request, given as the
    language named in the system prompt and the user content. *)
Record AIClient := {
  ai_model : str;
  target_lang : str;
  completions_create : str -> str -> result ChatCompletion;
}.

(** [response.choices[0]] *)
Definition first_choice (r : ChatCompletion) : result (option str) :=
  match r with
  | c :: _ => Ok c
  | [] => Raise IndexError
  end.

(** [content.strip()] on a content that may be [None]. *)
Definition content_strip (c : option str) : result str :=
  match c with
  | Some s => Ok (strip s)
  | None => Raise AttributeError
  end.

Definition translation_header : str :=
  [10; 10]%N ++ lit "[Translation]:" ++ [10]%N.

(** [lang = target_lang or self.target_lang] *)
Definition request_lang (client : AIClient) (target_lang_arg : option str) : str :=
  if truthy_opt target_lang_arg then default [] target_lang_arg
  else target_lang client.

(** The body of the [try] of [translate_text]. *)
Definition request_translation (client : AIClient) (lang text : str)
    : result str :=
  let* response := completions_create client lang text in
  let* choice := first_choice response in
  let* translation := content_strip choice in
  if truthy translation
  then Ok (text ++ translation_header ++ translation)
  else Ok text.

(** [translate_text(self, text, target_lang=None)] *)
Definition translate_text (ai_client : option AIClient) (text : str)
    (target_lang_arg : option str) : result str :=
  match ai_client with
  | None => Ok text
  | Some client =>
      if negb (truthy text) || (Z.of_nat (length text) <? 2) then Ok text
      else
        let lang := request_lang client target_lang_arg in
        try_except (request_translation client lang text) (fun _ => Ok text)
  end.

(** ** Transport records (Telethon) *)

(** [message.media]: the classes [download_media] tells apart, and any
    other media class by its class name. *)
Inductive Media :=
| MessageMediaPhoto
| MessageMediaDocument
| MessageMediaWebPage
| OtherMedia (class_name : str).

(** [message.media.__class__.__name__] *)
Definition media_class_name (m : Media) : str :=
  match m with
  | MessageMediaPhoto => lit "MessageMediaPhoto"
  | MessageMediaDocument => lit "MessageMediaDocument"
  | MessageMediaWebPage => lit "MessageMediaWebPage"
  | OtherMedia n => n
  end.

Definition is_webpage (m : Media) : bool :=
  match m with MessageMediaWebPage => true | _ => false end.

(** What [message.get_sender()] resolves to. *)
Inductive Sender :=
| User (first last uname : option str)
| NotUser.

(** An inline button: its [text] attribute when it has one, its [url]
    attribute when it has one. *)
Record Button := {
  button_text : option str;
  button_url : option str;
}.

(** One entry of [message.reactions.results]: the [emoticon] of the reaction
    (empty when it has none) and its [count]. *)
Record Reaction := {
  emoticon : str;
  count : Z;
}.

(** What one call of [message.download_media(file=...)] does: it raises, or
    returns a path (or [None]) together with whether that path exists. *)
Abbreviation FetchOutcome := (result (option str * bool)).

(** A Telethon message, with the behaviour of the calls made on it. *)
Record Message := {
  msg_id : Z;
  msg_date : str;
  msg_sender_id : option Z;
  get_sender : result Sender;
  msg_message : option str;
  msg_media : option Media;
  reply_markup : option (list (list Button));
  msg_reactions : option (list Reaction);
  reply_to_msg_id : option Z;
  msg_post_author : option str;
  msg_views : option Z;
  msg_forwards : option Z;
  fetch : nat -> FetchOutcome;
}.

(** ** The media download manager *)

(** What a download observably does, in order: fetch attempts and sleeps. *)
Inductive event :=
| Fetch (message : Z) (attempt : nat)
| Sleep (seconds : Z).

(** The body of [for attempt in range(3)] of [download_media], over the
    attempts still to run. A returned path is the function's result; running
    out of attempts is the [return None] after the loop. *)
Fixpoint download_attempts (m : Message) (attempts : list nat)
    : option str * list event :=
  match attempts with
  | [] => (None, [])
  | attempt :: rest =>
      match fetch m attempt with
      | Ok (downloaded_path, path_exists) =>
          if truthy_opt downloaded_path && path_exists
          then (downloaded_path, [Fetch (msg_id m) attempt])
          else (None, [Fetch (msg_id m) attempt])
      | Raise (FloodWaitError seconds) =>
          if (attempt <? 2)%nat
          then let (r, ev) := download_attempts m rest in
               (r, Fetch (msg_id m) attempt :: Sleep seconds :: ev)
          else (None, [Fetch (msg_id m) attempt])
      | Raise _ =>
          if (attempt <? 2)%nat
          then let (r, ev) := download_attempts m rest in
               (r, Fetch (msg_id m) attempt :: Sleep (2 ^ Z.of_nat attempt) :: ev)
          else (None, [Fetch (msg_id m) attempt])
      end
  end.

(** The files of each channel's media folder as [glob(f"{message.id}-*")]
    sees them: for a channel and a message id, the matching paths. *)
Abbreviation MediaFiles := (gmap (str * Z) (list str)).

Definition glob (files : MediaFiles) (channel : str) (mid : Z) : list str :=
  default [] (files !! (channel, mid)).

(** [download_media(self, channel, message)]: the path it returns, what it
    did, and the media folder afterwards. *)
Definition download_media (scrape_media : bool) (files : MediaFiles)
    (channel : str) (m : Message) : option str * list event * MediaFiles :=
  match msg_media m with
  | None => (None, [], files)
  | Some media =>
      if negb scrape_media then (None, [], files)
      else
        match media with
        | MessageMediaWebPage => (None, [], files)
        | OtherMedia _ => (None, [], files)
        | MessageMediaPhoto | MessageMediaDocument =>
            match glob files channel (msg_id m) with
            | existing :: _ => (Some existing, [], files)
            | [] =>
                let (r, ev) := download_attempts m (seq 0 3) in
                match r with
                | Some p => (Some p, ev, <[(channel, msg_id m) := [p]]> files)
                | None => (None, ev, files)
                end
            end
        end
  end.

(** ** The record normalizer *)

(** [f"{button_text}: {button.url}"] for every button with a truthy [url];
    a button without a [text] attribute is labelled [Link]. *)
Definition button_link (b : Button) : option str :=
  match button_url b with
  | Some url =>
      if truthy url
      then Some (default (lit "Link") (button_text b) ++ lit ": " ++ url)
      else None
  | None => None
  end.

(** [extract_button_urls(message)]; the link emoji is U+1F517. *)
Definition extract_button_urls (m : Message) : str :=
  match reply_markup m with
  | None => []
  | Some rows =>
      let button_links := omap button_link (concat rows) in
      match button_links with
      | [] => []
      | _ => [10; 10; 128279; 32]%N ++ lit "Links:" ++ [10]%N
             ++ join [10]%N button_links
      end
  end.

(** The [reactions_str] of a message. *)
Definition reactions_str (m : Message) : option str :=
  match msg_reactions m with
  | None | Some [] => None
  | Some results =>
      let reactions_parts :=
        omap (fun r => if truthy (emoticon r)
                       then Some (emoticon r ++ lit " " ++ str_of_int (count r))
                       else None) results in
      match reactions_parts with
      | [] => None
      | _ => Some (join (lit " ") reactions_parts)
      end
  end.

(** The [try] body of both traversal loops up to the construction of
    [msg_data]. In the force-rescrape loop the text is translated only when
    a target language is given ([force = true]). *)
Definition make_message_data (ai_client : option AIClient)
    (target_lang_arg : option str) (force : bool) (m : Message)
    : result MessageData :=
  let* sender := get_sender m in
  let message_text := default [] (msg_message m) ++ extract_button_urls m in
  let* message_text :=
    if bool_decide (is_Some ai_client) && truthy message_text
       && (negb force || truthy_opt target_lang_arg)
    then translate_text ai_client message_text target_lang_arg
    else Ok message_text in
  Ok {| message_id := msg_id m;
        date := msg_date m;
        sender_id := msg_sender_id m;
        first_name := match sender with User f _ _ => f | NotUser => None end;
        last_name := match sender with User _ l _ => l | NotUser => None end;
        username := match sender with User _ _ u => u | NotUser => None end;
        message := message_text;
        media_type := media_class_name <$> msg_media m;
        media_path := None;
        reply_to := reply_to_msg_id m;
        post_author := msg_post_author m;
        views := msg_views m;
        forwards := msg_forwards m;
        reactions := reactions_str m |}.

(** ** The scraper object and the disk *)

(** The keys of [self.state] the engine reads or writes. *)
Record ScraperState := {
  channels : gmap str Z;
  scrape_media : bool;
  message_limit : option Z;
}.

Definition set_channels (c : gmap str Z) (s : ScraperState) : ScraperState :=
  {| channels := c; scrape_media := scrape_media s;
     message_limit := message_limit s |}.

(** The scraper with what it keeps outside memory: [state] is [self.state];
    [state_file] is the state last written to [state.json] ([None] before
    the first write); [db] holds the [messages] table of every channel
    database that exists; [media_files] the media folders. *)
Record World := {
  ai_client : option AIClient;
  state : ScraperState;
  state_file : option ScraperState;
  db : gmap str Table;
  media_files : MediaFiles;
}.

Definition max_concurrent_downloads : Z := 5.
Definition batch_size : Z := 100.
Definition state_save_interval : Z := 50.

(** The table [get_db_connection(channel)] gives access to: the existing
    one, or the empty table it creates. *)
Definition table (w : World) (channel : str) : Table :=
  default [] (db w !! channel).

Definition set_table (w : World) (channel : str) (t : Table) : World :=
  {| ai_client := ai_client w; state := state w; state_file := state_file w;
     db := <[channel := t]> (db w); media_files := media_files w |}.

Definition set_media_files (w : World) (f : MediaFiles) : World :=
  {| ai_client := ai_client w; state := state w; state_file := state_file w;
     db := db w; media_files := f |}.

(** [self.state["channels"][channel] = last_message_id] *)
Definition set_cursor (w : World) (channel : str) (last : Z) : World :=
  {| ai_client := ai_client w;
     state := set_channels (<[channel := last]> (channels (state w))) (state w);
     state_file := state_file w; db := db w; media_files := media_files w |}.

(** [save_state(self)], run to completion. *)
Definition save_state (w : World) : World :=
  {| ai_client := ai_client w; state := state w;
     state_file := Some (state w); db := db w; media_files := media_files w |}.

(** The cursor a restarted process would read for the channel. *)
Definition saved_cursor (w : World) (channel : str) : option Z :=
  s ← state_file w; channels s !! channel.

(** [batch_insert_messages(self, channel, messages)], local store. *)
Definition batch_insert_messages (w : World) (channel : str)
    (messages : list MessageData) : World :=
  match messages with
  | [] => w
  | _ => set_table w channel (executemany_insert (table w channel) messages)
  end.

(** [update_media_path(self, channel, message_id, media_path)], local store. *)
Definition update_media_path (w : World) (channel : str) (mid : Z) (p : str)
    : World :=
  set_table w channel (execute_update_media_path (table w channel) mid p).

(** ** The transport *)

(** The Telegram side of one channel run: whether [client.get_entity]
    resolves, the channel's messages in ascending id order, and, when
    pagination breaks, the number of records [iter_messages] yields before it
    raises. *)
Record Transport := {
  get_entity : result unit;
  history : list Message;
  pagination_fault : option nat;
}.

(** What an [async for] over [iter_messages] sees: the records yielded, and
    whether the iterator then raised instead of stopping. *)
Definition paginate (t : Transport) (records : list Message)
    : list Message * bool :=
  match pagination_fault t with
  | None => (records, false)
  | Some k => (take k records, true)
  end.

(** [client.iter_messages(entity, offset_id=offset_id, reverse=True)] *)
Definition iter_messages_after (t : Transport) (offset_id : Z)
    : list Message * bool :=
  paginate t (List.filter (fun m => offset_id <? msg_id m) (history t)).

(** [client.iter_messages(entity, limit=message_limit)]: newest first. *)
Definition iter_messages_newest (t : Transport) (limit : Z)
    : list Message * bool :=
  paginate t (take (Z.to_nat limit) (rev (history t))).

(** [client.get_messages(entity, offset_id=..., reverse=True, limit=0).total]:
    the number of messages of the channel. *)
Definition total_messages (t : Transport) : Z := Z.of_nat (length (history t)).

(** [client.get_messages(entity, ids=batch_ids)]: one entry per requested
    id, [None] for a message that no longer exists. *)
Definition get_messages_by_ids (t : Transport) (ids : list Z)
    : list (option Message) :=
  map (fun i => List.find (fun m => msg_id m =? i) (history t)) ids.

(** ** The download phase *)

(** [range(0, stop, step)] *)
Definition range_step (stop step : nat) : list nat :=
  map (fun k => k * step)%nat (seq 0 ((stop + step - 1) / step)).

(** [l[i : i + n]] *)
Definition slice {A} (l : list A) (i n : nat) : list A := take n (drop i l).

(** The batches [media_tasks[i : i + batch_size]] for
    [i in range(0, len(media_tasks), batch_size)], with [batch_size = 10]. *)
Definition download_batches {A} (tasks : list A) : list (list A) :=
  map (fun i => slice tasks i 10) (range_step (length tasks) 10).

(** The world and [downloaded_media_paths] during the download phase. *)
Abbreviation Downloads := (World * gmap Z str)%type.

(** One task, at the point where the coordinator awaits it: the download,
    then [update_media_path] when it returned a path. Tasks are taken in the
    order in which they are awaited. *)
Definition await_task (channel : str) (w : World) (m : Message)
    : World * option str :=
  let '(media_path, _, files) :=
    download_media (scrape_media (state w)) (media_files w) channel m in
  let w := set_media_files w files in
  match media_path with
  | Some p =>
      if truthy p then (update_media_path w channel (msg_id m) p, Some p)
      else (w, None)
  | None => (w, None)
  end.

(** The same inside [scrape_channel], which also fills
    [downloaded_media_paths]. *)
Definition await_download (channel : str) (acc : Downloads) (m : Message)
    : Downloads :=
  let (w, paths) := acc in
  match await_task channel w m with
  | (w, Some p) => (w, <[msg_id m := p]> paths)
  | (w, None) => (w, paths)
  end.

(** The two nested loops of the download phase. *)
Definition download_all (channel : str) (w : World) (tasks : list Message)
    : Downloads :=
  fold_left (fun acc batch => fold_left (await_download channel) batch acc)
            (download_batches tasks) (w, ∅).

(** [for msg in collected_messages: if msg.message_id in
    downloaded_media_paths: msg.media_path = ...] *)
Definition attach_media_paths (paths : gmap Z str)
    (collected : list MessageData) : list MessageData :=
  map (fun msg => match paths !! message_id msg with
                  | Some p => set_media_path (Some p) msg
                  | None => msg
                  end) collected.

(** ** The ingestion coordinator *)

(** The local variables of a traversal loop. The force-rescrape loop has no
    [last_message_id]; there the field keeps its initial value. *)
Record Loop := {
  message_batch : list MessageData;
  collected_messages : list MessageData;
  media_tasks : list Message;
  processed_messages : Z;
  last_message_id : Z;
}.

Definition loop_init (offset_id : Z) : Loop :=
  {| message_batch := []; collected_messages := []; media_tasks := [];
     processed_messages := 0; last_message_id := offset_id |}.

(** [self.state["scrape_media"] and message.media and not
    isinstance(message.media, MessageMediaWebPage)] *)
Definition wants_download (w : World) (m : Message) : bool :=
  scrape_media (state w)
  && match msg_media m with
     | Some media => negb (is_webpage media)
     | None => false
     end.

(** What a return value of [scrape_channel] can be. *)
Inductive retval :=
| RetNone
| RetList (messages : list MessageData).

(** One iteration of the incremental loop. A record whose processing raises
    is reported and skipped: nothing was changed yet when [get_sender]
    raises. *)
Definition incremental_body (channel : str) (target_lang_arg : option str)
    (wl : World * Loop) (m : Message) : World * Loop :=
  let (w, l) := wl in
  match make_message_data (ai_client w) target_lang_arg false m with
  | Raise _ => (w, l)
  | Ok msg_data =>
      let batch := message_batch l ++ [msg_data] in
      let collected := collected_messages l ++ [msg_data] in
      let tasks := if wants_download w m then media_tasks l ++ [m]
                   else media_tasks l in
      let last := msg_id m in
      let processed := processed_messages l + 1 in
      let (w, batch) :=
        if batch_size <=? Z.of_nat (length batch)
        then (batch_insert_messages w channel batch, [])
        else (w, batch) in
      let w :=
        if processed mod state_save_interval =? 0
        then save_state (set_cursor w channel last)
        else w in
      (w, {| message_batch := batch; collected_messages := collected;
             media_tasks := tasks; processed_messages := processed;
             last_message_id := last |})
  end.

(** One iteration of the force-rescrape loop. *)
Definition force_body (channel : str) (target_lang_arg : option str)
    (wl : World * Loop) (m : Message) : World * Loop :=
  let (w, l) := wl in
  match make_message_data (ai_client w) target_lang_arg true m with
  | Raise _ => (w, l)
  | Ok msg_data =>
      let batch := message_batch l ++ [msg_data] in
      let collected := collected_messages l ++ [msg_data] in
      let tasks := if wants_download w m then media_tasks l ++ [m]
                   else media_tasks l in
      let processed := processed_messages l + 1 in
      let (w, batch) :=
        if batch_size <=? Z.of_nat (length batch)
        then (batch_insert_messages w channel batch, [])
        else (w, batch) in
      (w, {| message_batch := batch; collected_messages := collected;
             media_tasks := tasks; processed_messages := processed;
             last_message_id := last_message_id l |})
  end.

(** The incremental loop over the records pagination has yielded so far. *)
Definition incremental_loop (channel : str) (target_lang_arg : option str)
    (w : World) (offset_id : Z) (yielded : list Message) : World * Loop :=
  fold_left (incremental_body channel target_lang_arg) yielded
            (w, loop_init offset_id).

Definition force_loop (channel : str) (target_lang_arg : option str)
    (w : World) (offset_id : Z) (yielded : list Message) : World * Loop :=
  fold_left (force_body channel target_lang_arg) yielded
            (w, loop_init offset_id).

(** Truthiness of [self.state.get("message_limit")]. *)
Definition limit_set (s : ScraperState) : bool :=
  match message_limit s with
  | Some n => negb (n =? 0)
  | None => false
  end.

(** What follows a traversal loop that ended without an exception: the
    final flush, then the download phase. *)
Definition flush_and_download (channel : str) (wl : World * Loop) : Downloads :=
  let (w, l) := wl in
  let w := match message_batch l with
           | [] => w
           | batch => batch_insert_messages w channel batch
           end in
  match media_tasks l with
  | [] => (w, ∅)
  | tasks => download_all channel w tasks
  end.

(** [scrape_channel(self, channel, offset_id, force_rescrape=False,
    target_lang=None)]: the world it leaves and the value it returns. An
    exception of [get_entity] or of pagination reaches the outer handler,
    which returns the empty list. *)
Definition scrape_channel (w : World) (t : Transport) (channel : str)
    (offset_id : Z) (force_rescrape : bool) (target_lang_arg : option str)
    : World * retval :=
  match get_entity t with
  | Raise _ => (w, RetList [])
  | Ok _ =>
      if force_rescrape && limit_set (state w) then
        let limit := default 0 (message_limit (state w)) in
        let (yielded, raised) := iter_messages_newest t limit in
        let wl := force_loop channel target_lang_arg w offset_id yielded in
        if raised then (fst wl, RetList [])
        else
          let (w, paths) := flush_and_download channel wl in
          (w, RetList (attach_media_paths paths (collected_messages (snd wl))))
      else
        if total_messages t =? 0 then (w, RetNone)
        else
          let (yielded, raised) := iter_messages_after t offset_id in
          let wl := incremental_loop channel target_lang_arg w offset_id yielded in
          if raised then (fst wl, RetList [])
          else
            let (w, paths) := flush_and_download channel wl in
            let w := save_state (set_cursor w channel (last_message_id (snd wl))) in
            (w, RetList (attach_media_paths paths (collected_messages (snd wl))))
  end.

(** ** The repair pass *)

(** [get_db_connection(channel)]: the channel database is created, with an
    empty [messages] table, when it does not exist. *)
Definition get_db_connection (w : World) (channel : str) : World :=
  match db w !! channel with
  | Some _ => w
  | None => set_table w channel []
  end.

(** [msg and msg.media and not isinstance(msg.media, MessageMediaWebPage)] *)
Definition valid_message (o : option Message) : option Message :=
  match o with
  | Some m =>
      match msg_media m with
      | Some media => if is_webpage media then None else Some m
      | None => None
      end
  | None => None
  end.

(** One batch of ids of [rescrape_media]: the world afterwards and the
    download tasks created so far. *)
Definition rescrape_batch (channel : str) (t : Transport)
    (acc : World * list Message) (batch_ids : list Z) : World * list Message :=
  let (w, submitted) := acc in
  let messages := get_messages_by_ids t batch_ids in
  let valid_messages := omap valid_message messages in
  (fold_left (fun w m => fst (await_task channel w m)) valid_messages w,
   submitted ++ valid_messages).

(** [rescrape_media(self, channel)]: the world it leaves and the download
    tasks it created. *)
Definition rescrape_media (w : World) (t : Transport) (channel : str)
    : World * list Message :=
  let w := get_db_connection w channel in
  let message_ids := select_missing_media (table w channel) in
  match message_ids with
  | [] => (w, [])
  | _ =>
      match get_entity t with
      | Raise _ => (w, [])
      | Ok _ =>
          fold_left (rescrape_batch channel t) (download_batches message_ids)
                    (w, [])
      end
  end.

(** ** The checkpoint file, write by write *)

Section CheckpointFile.

(** The chunks [json.dump(self.state, f, indent=2)] passes to [f.write],
    in order. *)
Variable json_chunks : ScraperState -> list str.

(** [state.json] after one call of [save_state]; the file is [None] when
    it does not exist. The call performs [open(STATE_FILE, "w")], which
    creates or truncates the file, and then one write per chunk. With
    [stop = None] it performs them all. With [stop = Some k] only the
    first [k] of these operations take effect: the process dies there, or
    the next operation raises and [save_state] reports the failure and
    returns. *)
Definition write_state_file (st : ScraperState) (old : option str)
    (stop : option nat) : option str :=
  match stop with
  | None => Some (concat (json_chunks st))
  | Some O => old
  | Some (S k) => Some (concat (take k (json_chunks st)))
  end.

End CheckpointFile.

(** ** The admission gate of the download phase *)

(** Where a download task created by [asyncio.create_task] is: waiting at
    [async with semaphore], inside it (its [download_media] running), or
    finished with the semaphore released. *)
Inductive phase :=
| Waiting
| Fetching
| Finished.

(** The download phase as the event loop sees it: the value of the
    semaphore, the tasks of the current batch, and the batches not yet
    started. *)
Record Pool := {
  permits : Z;
  current : list (Message * phase);
  later : list (list Message);
}.

(** [semaphore = asyncio.Semaphore(self.max_concurrent_downloads)], and the
    tasks of the first batch created. *)
Definition pool_init (tasks : list Message) : Pool :=
  match download_batches tasks with
  | [] => {| permits := max_concurrent_downloads; current := []; later := [] |}
  | batch :: rest =>
      {| permits := max_concurrent_downloads;
         current := map (fun m => (m, Waiting)) batch; later := rest |}
  end.

(** What the event loop can do next. *)
Inductive action :=
| Acquire (i : nat)
| Release (i : nat)
| NextBatch.

Definition set_phase (i : nat) (ph : phase) (p : Pool) : Pool :=
  {| permits := permits p;
     current := alter (fun mp => (fst mp, ph)) i (current p);
     later := later p |}.

Definition all_finished (p : Pool) : bool :=
  forallb (fun mp => match snd mp with Finished => true | _ => false end)
          (current p).

(** One step of the event loop. [Acquire i]: task [i] passes the semaphore,
    possible only while its value is positive. [Release i]: task [i] leaves
    [async with] and gives the permit back. [NextBatch]: every task of the
    batch has been awaited, the tasks of the next batch are created. *)
Definition pool_step (p : Pool) (a : action) : option Pool :=
  match a with
  | Acquire i =>
      match current p !! i with
      | Some (_, Waiting) =>
          if 0 <? permits p
          then Some {| permits := permits p - 1;
                       current := current (set_phase i Fetching p);
                       later := later p |}
          else None
      | _ => None
      end
  | Release i =>
      match current p !! i with
      | Some (_, Fetching) =>
          Some {| permits := permits p + 1;
                  current := current (set_phase i Finished p);
                  later := later p |}
      | _ => None
      end
  | NextBatch =>
      match later p with
      | batch :: rest =>
          if all_finished p
          then Some {| permits := permits p;
                       current := map (fun m => (m, Waiting)) batch;
                       later := rest |}
          else None
      | [] => None
      end
  end.

(** A schedule: the steps taken from a state, [None] when one of them is
    not possible. *)
Fixpoint run_schedule (p : Pool) (schedule : list action) : option Pool :=
  match schedule with
  | [] => Some p
  | a :: rest =>
      match pool_step p a with
      | Some p' => run_schedule p' rest
      | None => None
      end
  end.

(** The number of attachment fetches in flight. *)
Definition in_flight (p : Pool) : Z :=
  Z.of_nat (length (List.filter
                      (fun mp => match snd mp with Fetching => true | _ => false end)
                      (current p))).

(** ** The statements of the design specification, as definitions *)

(** The translation obtained for a text, when there is one: a client is
    configured, the text has at least two characters, the call returns a
    first choice with a content, and that content is not empty once
    stripped. *)
Definition obtained_translation (ai_client : option AIClient) (text : str)
    (target_lang_arg : option str) : option str :=
  match ai_client with
  | None => None
  | Some client =>
      if Z.of_nat (length text) <? 2 then None
      else
        match completions_create client (request_lang client target_lang_arg) text with
        | Ok (Some content :: _) =>
            match strip content with
            | [] => None
            | translation => Some translation
            end
        | _ => None
        end
  end.

(** The text the translation step is to hand on: the original, followed by
    the header and the translation when one was obtained. *)
Definition translated_body (ai_client : option AIClient) (text : str)
    (target_lang_arg : option str) : str :=
  match obtained_translation ai_client text target_lang_arg with
  | Some translation => text ++ translation_header ++ translation
  | None => text
  end.

(** The pause the retry policy prescribes after a failed attempt: the wait
    the server asked for when the failure is a rate-limit signal, and
    [2^attempt] otherwise. *)
Definition backoff (e : exn) (attempt : nat) : Z :=
  match e with
  | FloodWaitError seconds => seconds
  | _ => 2 ^ Z.of_nat attempt
  end.

Definition fetch_count (ev : list event) : nat :=
  length (List.filter (fun e => match e with Fetch _ _ => true | _ => false end) ev).

Definition fetching (mp : Message * phase) : bool :=
  match snd mp with Fetching => true | _ => false end.

Definition fetching_count (l : list (Message * phase)) : Z :=
  Z.of_nat (length (List.filter fetching l)).

(** The invariant of the gate: every permit is either in the semaphore or
    held by a fetch in flight. *)
Definition gate_invariant (p : Pool) : Prop :=
  0 <= permits p /\ in_flight p + permits p = max_concurrent_downloads.

(** A save of the checkpoint that is all or nothing: whatever stops it, the
    file afterwards is the file as it was or the complete new state. *)
Definition save_lands_or_is_absent (json_chunks : ScraperState -> list str)
    (st : ScraperState) (old : option str) (stop : option nat) : Prop :=
  write_state_file json_chunks st old stop = old
  \/ write_state_file json_chunks st old stop = Some (concat (json_chunks st)).

(** The records of a traversal that are processed, as opposed to skipped
    because their processing raises. *)
Definition processable (ai : option AIClient) (lang : option str)
    (force : bool) (m : Message) : bool :=
  match make_message_data ai lang force m with
  | Ok _ => true
  | Raise _ => false
  end.

Definition processed_records (ai : option AIClient) (lang : option str)
    (force : bool) (yielded : list Message) : list Message :=
  List.filter (processable ai lang force) yielded.

(** The id at which the last checkpoint of an incremental traversal was
    taken, given the records processed so far: that of the last record whose
    position is a multiple of the checkpoint interval, if there is one. *)
Definition last_checkpoint (processed : list Message) : option Z :=
  let n := length processed in
  if (n <? 50)%nat then None
  else msg_id <$> processed !! (50 * (n / 50) - 1)%nat.

(** The state after a checkpoint at id [i], if any. *)
Definition checkpointed (channel : str) (s : ScraperState) (cp : option Z)
    : ScraperState :=
  match cp with
  | Some i => set_channels (<[channel := i]> (channels s)) s
  | None => s
  end.

(** Whether a message id is that of one of the records of a window, and
    whether a row lies outside the window. *)
Definition in_window (window : list Message) (mid : Z) : bool :=
  existsb (fun m => msg_id m =? mid) window.

Definition outside (window : list Message) (r : Row) : bool :=
  negb (in_window window (message_id (data r))).

(** What a step of a run may do to the scraper when it only writes rows of
    a window of the channel's table: the client, the state and the
    checkpoint file stay, the rows outside the window stay, and no stored
    id disappears. *)
Definition window_step (window : list Message) (channel : str)
    (w w' : World) : Prop :=
  ai_client w' = ai_client w
  /\ state w' = state w
  /\ state_file w' = state_file w
  /\ List.filter (outside window) (table w' channel)
     = List.filter (outside window) (table w channel)
  /\ forall i, has_message (table w channel) i = true ->
               has_message (table w' channel) i = true.

(** A message whose attachment the download manager fetches, and fetches
    at the first attempt: a photo or a document whose download returns the
    path of an existing file. *)
Definition downloadable (m : Message) : Prop :=
  (msg_media m = Some MessageMediaPhoto \/ msg_media m = Some MessageMediaDocument)
  /\ exists p, fetch m 0%nat = Ok (Some p, true) /\ truthy p = true.

(** A stored id whose message the transport still returns, downloadable. *)
Definition repairable (t : Transport) (i : Z) : Prop :=
  exists m, List.find (fun m => msg_id m =? i) (history t) = Some m
            /\ downloadable m.

(** File paths are not empty. *)
Definition files_named (files : MediaFiles) : Prop :=
  forall k ps, files !! k = Some ps -> Forall (fun p => truthy p = true) ps.

(** The writes the engine makes to a [messages] table: [INSERT OR IGNORE]
    of a record without media reference, and [UPDATE] of the media
    reference of an id to a non-empty path. [store_writes t t'] says that
    [t'] is [t] after some sequence of such writes. *)
Inductive store_writes : Table -> Table -> Prop :=
| writes_none t : store_writes t t
| writes_insert t t' m :
    store_writes t t' -> media_path m = None ->
    store_writes t (insert_or_ignore t' m)
| writes_update t t' mid p :
    store_writes t t' -> truthy p = true ->
    store_writes t (execute_update_media_path t' mid p).

(** What a run on one channel may change: the table of that channel, by
    writes of the two kinds, and the cursor of that channel. The client, the
    settings, and the tables and cursors of the other channels stay. *)
Definition run_effect (channel : str) (w w' : World) : Prop :=
  ai_client w' = ai_client w
  /\ scrape_media (state w') = scrape_media (state w)
  /\ message_limit (state w') = message_limit (state w)
  /\ (forall c, c <> channel ->
        channels (state w') !! c = channels (state w) !! c)
  /\ (forall c, c <> channel -> db w' !! c = db w !! c)
  /\ store_writes (table w channel) (table w' channel).

(** Two rows that differ at most in their media reference. *)
Definition same_but_media_path (r r' : Row) : Prop :=
  id r' = id r /\ set_media_path None (data r') = set_media_path None (data r).

(** No stored media reference is the empty string. *)
Definition paths_named (t : Table) : Prop :=
  Forall (fun r => media_path (data r) <> Some []) t.

(** A history in strictly ascending order of message id, as the transport
    delivers it. *)
Fixpoint ascending (l : list Message) : bool :=
  match l with
  | [] => true
  | x :: l' => forallb (fun y => msg_id x <? msg_id y) l' && ascending l'
  end.

(** A sequence of [UPDATE]s of media references, as pairs of id and path. *)
Definition apply_updates (ups : list (Z * str)) (t : Table) : Table :=
  fold_left (fun t ip => execute_update_media_path t (fst ip) (snd ip)) ups t.

(** ** The second repair pass *)

(** [media_type IS NOT NULL AND media_type != "MessageMediaWebPage"] *)
Definition has_media (r : Row) : bool :=
  match media_type (data r) with
  | Some ty => negb (bool_decide (ty = lit "MessageMediaWebPage"))
  | None => false
  end.

(** [... AND media_path IS NOT NULL] *)
Definition has_file (r : Row) : bool :=
  has_media r && bool_decide (is_Some (media_path (data r))).

(** [... AND (media_path IS NULL OR media_path = "")] *)
Definition missing_or_empty (r : Row) : bool :=
  has_media r
  && match media_path (data r) with
     | None => true
     | Some p => negb (truthy p)
     end.

(** [SELECT message_id, media_type FROM messages WHERE ...] of
    [fix_missing_media]. *)
Definition select_missing_or_empty (t : Table) : list (Z * option str) :=
  map (fun r => (message_id (data r), media_type (data r)))
      (List.filter missing_or_empty t).

(** [fix_missing_media(self, channel)]: the world it leaves and the download
    tasks it created. It returns at once when the two counts agree, and when
    the selection is empty; each batch of selected rows is handled as in
    [rescrape_media], from the ids [msg[0]] of its rows. *)
Definition fix_missing_media (w : World) (t : Transport) (channel : str)
    : World * list Message :=
  let w := get_db_connection w channel in
  let total_with_media :=
    Z.of_nat (length (List.filter has_media (table w channel))) in
  let total_with_files :=
    Z.of_nat (length (List.filter has_file (table w channel))) in
  let missing_count := total_with_media - total_with_files in
  if missing_count =? 0 then (w, [])
  else
    let missing_media := select_missing_or_empty (table w channel) in
    match missing_media with
    | [] => (w, [])
    | _ =>
        match get_entity t with
        | Raise _ => (w, [])
        | Ok _ =>
            fold_left (fun acc batch =>
                         rescrape_batch channel t acc (map fst batch))
                      (download_batches missing_media) (w, [])
        end
    end.

(** ** Restarting the process *)

(** [load_state(self)]: the state read from [state.json], or the default
    state when the file does not exist (or cannot be read). *)
Definition load_state (file : option ScraperState) : ScraperState :=
  default {| channels := ∅; scrape_media := true; message_limit := None |} file.

(** The scraper a new process starts with after the old one died: what was
    on disk stays, [self.state] is loaded from the file. *)
Definition restart (w : World) : World :=
  {| ai_client := ai_client w; state := load_state (state_file w);
     state_file := state_file w; db := db w; media_files := media_files w |}.

(** ** Scraping by address *)

(** [s.startswith(prefix)] *)
Fixpoint startswith (s prefix : str) {struct prefix} : bool :=
  match prefix with
  | [] => true
  | p :: prefix' =>
      match s with
      | c :: s' => (c =? p)%N && startswith s' prefix'
      | [] => false
      end
  end.

(** What [client.get_entity(url)] resolves an address to: [entity.id], and
    [entity.username] when the entity has one. *)
Record Entity := {
  entity_id : Z;
  entity_username : option str;
}.

(** [f"-100{channel_id}" if not str(channel_id).startswith("-100")
    else str(channel_id)], written out in both branches of
    [scrape_channel_by_url]. *)
Definition full_id (channel_id : str) : str :=
  if negb (startswith channel_id (lit "-100")) then lit "-100" ++ channel_id
  else channel_id.

(** [self.state["channel_names"]]: absent until a name is first recorded.
    The engine reads it only for display and for the remote mirror. *)
Abbreviation ChannelNames := (option (gmap str str)).

(** The dict [scrape_channel_by_url] returns; the text of the error message
    is left out. *)
Inductive ScrapeResult :=
| StatusSuccess (channel_id : str) (messages : retval)
| StatusError.

(** [scrape_channel_by_url(self, url, target_lang=None)]. [get_entity_url]
    is [client.get_entity] on addresses; [t] is the transport of the channel
    the address resolves to. *)
Definition scrape_channel_by_url (w : World) (names : ChannelNames)
    (get_entity_url : str -> result Entity) (t : Transport) (url : str)
    (target_lang_arg : option str) : World * ChannelNames * ScrapeResult :=
  match get_entity_url url with
  | Raise _ => (w, names, StatusError)
  | Ok entity =>
      let channel_id := str_of_int (entity_id entity) in
      let channel_to_scrape := full_id channel_id in
      let (w, names) :=
        match channels (state w) !! channel_id with
        | None =>
            let w := set_cursor w channel_to_scrape 0 in
            let username :=
              if truthy_opt (entity_username entity)
              then default [] (entity_username entity)
              else lit "unknown" in
            let names :=
              Some (<[channel_to_scrape := username]> (default ∅ names)) in
            (save_state w, names)
        | Some _ => (w, names)
        end in
      let (w, messages) :=
        scrape_channel w t channel_to_scrape 0 true target_lang_arg in
      (w, names, StatusSuccess channel_to_scrape messages)
  end.

(** ** The HTTP interface (api.py) *)

(** [class ScrapeRequest(BaseModel)] *)
Record ScrapeRequest := {
  req_url : str;
  req_limit : Z;
  req_lang : option str;
}.

(** The Telegram client of the scraper, as the endpoint uses it. *)
Record Client := {
  is_user_authorized : bool;
  get_entity_url : str -> result Entity;
  channel_transport : Transport;
}.

(** [scraper_instance], when it is not [None]; [client] is [None] when the
    client was never created. *)
Record Scraper := {
  world : World;
  channel_names : ChannelNames;
  client : option Client;
}.

(** A message as [/scrape] hands it to the frontend. *)
Record CleanMessage := {
  clean_message_id : Z;
  clean_date : str;
  clean_message : str;
  clean_views : option Z;
  media_url : option str;
}.

(** What the endpoint raises; the detail text is left out. *)
Inductive Raised :=
| HTTPException (status_code : Z)
| TypeError.

(** [scraper_instance.state["message_limit"] = request.limit] *)
Definition set_message_limit (w : World) (n : Z) : World :=
  {| ai_client := ai_client w;
     state := {| channels := channels (state w);
                 scrape_media := scrape_media (state w);
                 message_limit := Some n |};
     state_file := state_file w; db := db w; media_files := media_files w |}.

(** [rel_path.replace("\\", "/")] *)
Definition replace_backslash (s : str) : str :=
  map (fun c => if (c =? 92)%N then 47%N else c) s.

Section ScrapeEndpoint.

(** [os.path.relpath(path, os.getcwd())], [None] when it raises. *)
Variable relpath : str -> option str.

(** The loop body that builds [msg_dict]. *)
Definition clean (msg : MessageData) : CleanMessage :=
  {| clean_message_id := message_id msg;
     clean_date := date msg;
     clean_message := message msg;
     clean_views := views msg;
     media_url :=
       match media_path msg with
       | Some p =>
           if truthy p
           then match relpath p with
                | Some rel_path =>
                    Some (lit "/static/" ++ replace_backslash rel_path)
                | None => None
                end
           else None
       | None => None
       end |}.

(** The [try] body of the endpoint: what it raises, or the channel id and
    the messages of the response. Iterating over a [None] result is a
    [TypeError]. *)
Definition scrape_try (w : World) (names : ChannelNames) (c : Client)
    (request : ScrapeRequest)
    : World * ChannelNames * (Raised + str * list CleanMessage) :=
  let '(w, names, result) :=
    scrape_channel_by_url w names (get_entity_url c) (channel_transport c)
      (req_url request) (req_lang request) in
  match result with
  | StatusError => (w, names, inl (HTTPException 400))
  | StatusSuccess channel_id raw_messages =>
      match raw_messages with
      | RetNone => (w, names, inl TypeError)
      | RetList msgs => (w, names, inr (channel_id, rev (map clean msgs)))
      end
  end.

(** [POST /scrape]: the scraper afterwards, and the exception raised or the
    response. *)
Definition scrape_endpoint (scraper_instance : option Scraper)
    (request : ScrapeRequest)
    : option Scraper * (Raised + str * list CleanMessage) :=
  match scraper_instance with
  | None => (None, inl (HTTPException 503))
  | Some s =>
      match client s with
      | None => (Some s, inl (HTTPException 503))
      | Some c =>
          if negb (is_user_authorized c)
          then (Some s, inl (HTTPException 401))
          else
            let w := if negb (req_limit request =? 0)
                     then set_message_limit (world s) (req_limit request)
                     else world s in
            let '(w, names, r) := scrape_try w (channel_names s) c request in
            (Some {| world := w; channel_names := names; client := client s |},
             match r with
             | inl _ => inl (HTTPException 500)
             | inr response => inr response
             end)
      end
  end.

End ScrapeEndpoint.

(** ** Choosing channels *)

(** [s.split(sep)] for a separator of one code point. *)
Fixpoint split_on (sep : N) (s : str) : list str :=
  match s with
  | [] => [[]]
  | c :: s' =>
      if (c =? sep)%N then [] :: split_on sep s'
      else match split_on sep s' with
           | part :: parts => (c :: part) :: parts
           | [] => [[c]]
           end
  end.

Section ChannelSelection.

(** [str.lower], and [int] on a string ([None] for a [ValueError]). *)
Variable lower : str -> str.
Variable int : str -> option Z.

(** The body of the selection loop: the channel one entry selects, if any.
    [channels_list] is [list(self.state["channels"].keys())]. *)
Definition select_channel (s : ScraperState) (channels_list : list str)
    (selection : str) : option str :=
  if startswith selection (lit "-") then
    if bool_decide (is_Some (channels s !! selection)) then Some selection
    else None
  else
    match int selection with
    | Some num =>
        if (1 <=? num) && (num <=? Z.of_nat (length channels_list))
        then channels_list !! Z.to_nat (num - 1)
        else None
    | None => None
    end.

(** [parse_channel_selection(self, choice)] *)
Definition parse_channel_selection (s : ScraperState)
    (channels_list : list str) (choice : str) : list str :=
  if bool_decide (lower choice = lit "all") then channels_list
  else omap (select_channel s channels_list)
            (map strip (split_on 44 choice)).

End ChannelSelection.

(** ** Sample inputs *)

(** A client whose every call fails. *)
Definition failing_client : AIClient :=
  {| ai_model := lit "gpt-3.5-turbo"; target_lang := lit "English";
     completions_create := fun _ _ => Raise TransportError |}.

(** A text message with the given id, sent by a channel, with the given
    media and the given behaviour of its download. *)
Definition sample_message (i : Z) (media : option Media)
    (outcomes : nat -> FetchOutcome) : Message :=
  {| msg_id := i; msg_date := lit "2024-01-01 00:00:00";
     msg_sender_id := None; get_sender := Ok NotUser;
     msg_message := Some (lit "post"); msg_media := media;
     reply_markup := None; msg_reactions := None; reply_to_msg_id := None;
     msg_post_author := None; msg_views := None; msg_forwards := None;
     fetch := outcomes |}.

(** A download that is throttled, then fails, then succeeds. *)
Definition third_time_lucky (attempt : nat) : FetchOutcome :=
  match attempt with
  | O => Raise (FloodWaitError 7)
  | S O => Raise TransportError
  | _ => Ok (Some (lit "channels/c/media/9-photo.jpg"), true)
  end.

(** Seven photo tasks, and a schedule that lets five of them through the
    gate. *)
Definition seven_tasks : list Message :=
  map (fun i => sample_message i (Some MessageMediaPhoto) third_time_lucky)
      [1; 2; 3; 4; 5; 6; 7].

Definition five_admitted : list action :=
  [Acquire 0; Acquire 1; Acquire 2; Acquire 3; Acquire 4].

(** A state with one channel, [c], at the given cursor. *)
Definition one_channel (cursor : Z) : ScraperState :=
  {| channels := {[lit "c" := cursor]}; scrape_media := true;
     message_limit := None |}.

Definition quoted (s : string) : str := [34]%N ++ lit s ++ [34]%N.

(** The chunks [json.dump(..., indent=2)] writes for the state of a scraper
    that has no credentials and no channel names and follows the single
    channel [c]. *)
Definition one_channel_chunks (st : ScraperState) : list str :=
  [ lit "{"; [10; 32; 32]%N; quoted "api_id"; lit ": "; lit "null";
    [44; 10; 32; 32]%N; quoted "api_hash"; lit ": "; lit "null";
    [44; 10; 32; 32]%N; quoted "channels"; lit ": "; lit "{";
    [10; 32; 32; 32; 32]%N; quoted "c"; lit ": ";
    str_of_int (default 0 (channels st !! lit "c"));
    [10; 32; 32]%N; lit "}";
    [44; 10; 32; 32]%N; quoted "channel_names"; lit ": "; lit "{}";
    [44; 10; 32; 32]%N; quoted "scrape_media"; lit ": ";
    lit (if scrape_media st then "true" else "false");
    [44; 10; 32; 32]%N; quoted "message_limit"; lit ": "; lit "null";
    [10]%N; lit "}" ].

Definition channel_c : str := lit "c".

(** Text-only messages with ids [1..n]. *)
Definition text_messages (n : nat) : list Message :=
  map (fun i => sample_message (Z.of_nat i) None (fun _ => Raise TransportError))
      (seq 1 n).

(** A channel of sixty messages that answers every request. *)
Definition sixty_messages : Transport :=
  {| get_entity := Ok tt; history := text_messages 60;
     pagination_fault := None |}.

(** The same channel, with pagination breaking after fifty-five records. *)
Definition sixty_messages_broken : Transport :=
  {| get_entity := Ok tt; history := text_messages 60;
     pagination_fault := Some 55%nat |}.

(** A scraper that follows channel [c] from cursor 0 and has stored nothing
    yet. *)
Definition fresh_scraper : World :=
  {| ai_client := None; state := one_channel 0;
     state_file := Some (one_channel 0); db := ∅; media_files := ∅ |}.

(** The ids stored for a channel, in row order. *)
Definition stored_ids (w : World) (channel : str) : list Z :=
  map (fun r => message_id (data r)) (table w channel).

(** A scraper with a message limit of five, a cursor at 100 for channel
    [c], and nothing stored. *)
Definition limited_scraper : World :=
  {| ai_client := None;
     state := {| channels := {[lit "c" := 100]}; scrape_media := true;
                 message_limit := Some 5 |};
     state_file := None; db := ∅; media_files := ∅ |}.

Definition always_delivers (attempt : nat) : FetchOutcome :=
  Ok (Some (lit "channels/c/media/7-file"), true).

Definition never_delivers (attempt : nat) : FetchOutcome :=
  Raise TransportError.

(** A channel whose only message, 7, carries a poll; one whose only
    message carries a photo that cannot be fetched; one whose only message
    carries a photo that can; and the channel after its message was
    deleted. *)
Definition poll_channel : Transport :=
  {| get_entity := Ok tt;
     history := [sample_message 7 (Some (OtherMedia (lit "MessageMediaPoll")))
                   always_delivers];
     pagination_fault := None |}.

Definition photo_channel_down : Transport :=
  {| get_entity := Ok tt;
     history := [sample_message 7 (Some MessageMediaPhoto) never_delivers];
     pagination_fault := None |}.

Definition photo_channel : Transport :=
  {| get_entity := Ok tt;
     history := [sample_message 7 (Some MessageMediaPhoto) always_delivers];
     pagination_fault := None |}.

Definition emptied_channel : Transport :=
  {| get_entity := Ok tt; history := []; pagination_fault := None |}.

(** The scraper after a first incremental run over a channel. *)
Definition scraped (t : Transport) : World :=
  fst (scrape_channel fresh_scraper t channel_c 0 false None).

(** A channel whose only message cannot be processed: resolving its sender
    raises. *)
Definition unreadable_channel : Transport :=
  {| get_entity := Ok tt;
     history := [ {| msg_id := 1; msg_date := lit "2024-01-01 00:00:00";
                     msg_sender_id := None; get_sender := Raise TransportError;
                     msg_message := Some (lit "post"); msg_media := None;
                     reply_markup := None; msg_reactions := None;
                     reply_to_msg_id := None; msg_post_author := None;
                     msg_views := None; msg_forwards := None;
                     fetch := never_delivers |} ];
     pagination_fault := None |}.

(** A normalized text record with the given id and no media. *)
Definition sample_record (i : Z) : MessageData :=
  {| message_id := i; date := lit "2024-01-01 00:00:00"; sender_id := None;
     first_name := None; last_name := None; username := None;
     message := lit "post"; media_type := None; media_path := None;
     reply_to := None; post_author := None; views := None; forwards := None;
     reactions := None |}.

(** The steps the download phase still has to take in a state of the
    admission gate: two for a waiting task, one for a task in flight, and
    for every batch not yet started two per task and one to start it. *)
Definition steps_of_phase (mp : Message * phase) : nat :=
  match snd mp with
  | Waiting => 2
  | Fetching => 1
  | Finished => 0
  end.

Definition steps_left (p : Pool) : nat :=
  list_sum (map steps_of_phase (current p))
  + list_sum (map (fun batch => S (2 * length batch)) (later p)).

(** A scraper whose only stored record, 7, is a photo whose media
    reference is the empty string. *)
Definition empty_reference_scraper : World :=
  set_table fresh_scraper channel_c
    [ {| id := 1;
         data := set_media_path (Some [])
                   {| message_id := 7; date := lit "2024-01-01 00:00:00";
                      sender_id := None; first_name := None; last_name := None;
                      username := None; message := lit "post";
                      media_type := Some (lit "MessageMediaPhoto");
                      media_path := None; reply_to := None; post_author := None;
                      views := None; forwards := None; reactions := None |} |} ].

(** A scraper that follows channel [-100123], has read it up to record 60
    and has a message limit of five. *)
Definition tracked_scraper : World :=
  {| ai_client := None;
     state := {| channels := {[lit "-100123" := 60]}; scrape_media := true;
                 message_limit := Some 5 |};
     state_file := Some {| channels := {[lit "-100123" := 60]};
                           scrape_media := true; message_limit := Some 5 |};
     db := ∅; media_files := ∅ |}.

(** A client for which every address resolves to the entity 123, the
    channel of sixty messages. *)
Definition sample_client : Client :=
  {| is_user_authorized := true;
     get_entity_url := fun _ =>
       Ok {| entity_id := 123; entity_username := Some (lit "news") |};
     channel_transport := sixty_messages |}.

Definition sample_service : Scraper :=
  {| world := tracked_scraper; channel_names := None;
     client := Some sample_client |}.

Definition sample_request : ScrapeRequest :=
  {| req_url := lit "https://t.me/news"; req_limit := 3; req_lang := None |}.

(** A message whose sender cannot be fetched. *)
Definition senderless_message : Message :=
  {| msg_id := 1; msg_date := lit "2024-01-01 00:00:00";
     msg_sender_id := None; get_sender := Raise TransportError;
     msg_message := Some (lit "post"); msg_media := None;
     reply_markup := None; msg_reactions := None; reply_to_msg_id := None;
     msg_post_author := None; msg_views := None; msg_forwards := None;
     fetch := fun _ => Raise TransportError |}.

(** * Properties *)

(** ** The local store *)

Lemma has_message_app t1 t2 mid :
  has_message (t1 ++ t2) mid = has_message t1 mid || has_message t2 mid.
Proof. unfold has_message. apply existsb_app. Qed.

Lemma has_message_insert t m mid :
  has_message (insert_or_ignore t m) mid
  = has_message t mid || (message_id m =? mid).
Proof.
  unfold insert_or_ignore.
  destruct (has_message t (message_id m)) eqn:Hm.
  - destruct (Z.eqb_spec (message_id m) mid) as [<-|_].
    + rewrite Hm. reflexivity.
    + rewrite orb_false_r. reflexivity.
  - rewrite has_message_app. simpl. rewrite orb_false_r. reflexivity.
Qed.

Lemma insert_or_ignore_present t m :
  has_message t (message_id m) = true -> insert_or_ignore t m = t.
Proof. unfold insert_or_ignore. intros ->. reflexivity. Qed.

Lemma has_message_executemany msgs : forall t mid,
  has_message (executemany_insert t msgs) mid
  = has_message t mid || existsb (fun m => message_id m =? mid) msgs.
Proof.
  induction msgs as [|m msgs IH]; intros t mid; simpl.
  - rewrite orb_false_r. reflexivity.
  - unfold executemany_insert in *. simpl. rewrite IH, has_message_insert.
    rewrite orb_assoc. reflexivity.
Qed.

Lemma executemany_insert_present msgs : forall t,
  (forall m, In m msgs -> has_message t (message_id m) = true) ->
  executemany_insert t msgs = t.
Proof.
  induction msgs as [|m msgs IH]; intros t Hall; [reflexivity|].
  unfold executemany_insert in *. simpl.
  rewrite insert_or_ignore_present by (apply Hall; left; reflexivity).
  apply IH. intros m' Hin. apply Hall. right. exact Hin.
Qed.

Lemma executemany_insert_twice t msgs :
  executemany_insert (executemany_insert t msgs) msgs = executemany_insert t msgs.
Proof.
  apply executemany_insert_present. intros m Hin.
  rewrite has_message_executemany. apply orb_true_iff. right.
  apply existsb_exists. exists m. split; [exact Hin | apply Z.eqb_refl].
Qed.

Lemma table_set_table w channel t : table (set_table w channel t) channel = t.
Proof. unfold table, set_table. simpl. rewrite lookup_insert_eq. reflexivity. Qed.

Lemma table_set_table_ne w c c' t :
  c <> c' -> table (set_table w c t) c' = table w c'.
Proof.
  intros Hne. unfold table, set_table. simpl.
  rewrite lookup_insert_ne by exact Hne. reflexivity.
Qed.

Lemma set_table_twice w channel t t' :
  set_table (set_table w channel t) channel t' = set_table w channel t'.
Proof. unfold set_table. simpl. rewrite insert_insert_eq. reflexivity. Qed.

Lemma table_batch_insert w channel msgs :
  table (batch_insert_messages w channel msgs) channel
  = executemany_insert (table w channel) msgs.
Proof.
  destruct msgs as [|m msgs]; [reflexivity|].
  unfold batch_insert_messages. apply table_set_table.
Qed.

Lemma insert_or_ignore_prefix t m : t `prefix_of` insert_or_ignore t m.
Proof.
  unfold insert_or_ignore. destruct (has_message t (message_id m)).
  - reflexivity.
  - eexists. reflexivity.
Qed.

Lemma executemany_insert_prefix msgs : forall t,
  t `prefix_of` executemany_insert t msgs.
Proof.
  induction msgs as [|m msgs IH]; intros t; [reflexivity|].
  unfold executemany_insert in *. simpl.
  etransitivity; [apply insert_or_ignore_prefix | apply IH].
Qed.

Lemma executemany_insert_origin msgs : forall t r,
  In r (executemany_insert t msgs) ->
  In r t \/ (In (data r) msgs /\ has_message t (message_id (data r)) = false).
Proof.
  induction msgs as [|m msgs IH]; intros t r Hin; [left; exact Hin|].
  unfold executemany_insert in *. simpl in Hin.
  destruct (IH _ _ Hin) as [Hold | [Hmsgs Hfresh]].
  - unfold insert_or_ignore in Hold.
    destruct (has_message t (message_id m)) eqn:Hm; [left; exact Hold|].
    apply in_app_or in Hold as [Hold | [<- | []]]; [left; exact Hold|].
    right. simpl. split; [left; reflexivity | exact Hm].
  - right. split; [right; exact Hmsgs|].
    rewrite has_message_insert in Hfresh.
    apply orb_false_iff in Hfresh. tauto.
Qed.

(** C4. Flushing a batch a second time through [batch_insert_messages]
    changes nothing: the scraper and its store are the same as after the
    first flush, so the channel's [messages] table has the same number of
    rows and the same rows. Every insert is an [INSERT OR IGNORE] keyed by
    [message_id]; in the repeated flush each of them finds its id and leaves
    the table as it is. The first flush is insert-if-absent: the rows stored
    before it stay as they are, the ids stored after it are those stored
    before and those of the batch, a record whose id is neither stored nor
    met earlier in the batch is stored as given, in a new row, and every
    added row carries a record of the batch whose id was not stored. *)
Theorem batch_insert_messages_idempotent (w : World) (channel : str)
    (messages : list MessageData) :
  let once := batch_insert_messages w channel messages in
  let twice := batch_insert_messages once channel messages in
  twice = once
  /\ length (table twice channel) = length (table once channel)
  /\ table twice channel = table once channel
  /\ Forall (fun m => insert_or_ignore (table once channel) m
                      = table once channel) messages
  /\ table w channel `prefix_of` table once channel
  /\ (forall i, has_message (table once channel) i
                = has_message (table w channel) i
                  || existsb (fun m => message_id m =? i) messages)
  /\ (forall pre m post, messages = pre ++ m :: post ->
        has_message (table w channel) (message_id m) = false ->
        existsb (fun m' => message_id m' =? message_id m) pre = false ->
        In {| id := next_rowid
                      (table (batch_insert_messages w channel pre) channel);
              data := m |}
           (table once channel))
  /\ (forall r, In r (table once channel) ->
        In r (table w channel)
        \/ (In (data r) messages
            /\ has_message (table w channel) (message_id (data r)) = false)).
Proof.
  intros once twice.
  assert (Heq : twice = once).
  { subst once twice. destruct messages as [|m msgs]; [reflexivity|].
    cbn [batch_insert_messages].
    rewrite table_set_table, set_table_twice, executemany_insert_twice.
    reflexivity. }
  rewrite Heq. split; [reflexivity|]. split; [reflexivity|].
  split; [reflexivity|]. subst once. rewrite !table_batch_insert.
  split; [|split; [|split; [|split]]].
  - apply List.Forall_forall. intros m Hin.
    apply insert_or_ignore_present.
    rewrite has_message_executemany.
    apply orb_true_iff. right. apply existsb_exists.
    exists m. split; [exact Hin | apply Z.eqb_refl].
  - apply executemany_insert_prefix.
  - intros i. apply has_message_executemany.
  - intros pre m post -> Hnew Hfirst. rewrite table_batch_insert.
    unfold executemany_insert. rewrite fold_left_app. cbn [fold_left].
    fold (executemany_insert (table w channel) pre).
    set (t1 := executemany_insert (table w channel) pre).
    assert (Ht1 : has_message t1 (message_id m) = false).
    { subst t1. rewrite has_message_executemany, Hnew, Hfirst. reflexivity. }
    unfold insert_or_ignore at 2. rewrite Ht1.
    destruct (executemany_insert_prefix post
                (t1 ++ [{| id := next_rowid t1; data := m |}])) as [k Hk].
    unfold executemany_insert in Hk. rewrite Hk.
    apply in_or_app. left. apply in_or_app. right. left. reflexivity.
  - intros r. apply executemany_insert_origin.
Qed.

Lemma batch_insert_messages_idempotent_witness :
  In {| id := 2; data := sample_record 2 |}
     (table (batch_insert_messages fresh_scraper channel_c
               [sample_record 1; sample_record 2]) channel_c).
Proof.
  exact (proj1 (proj2 (proj2 (proj2 (proj2 (proj2 (proj2
           (batch_insert_messages_idempotent fresh_scraper channel_c
              [sample_record 1; sample_record 2])))))))
           [sample_record 1] (sample_record 2) [] eq_refl eq_refl eq_refl).
Defined.

(** ** The translation step *)

Lemma translate_text_total ai text tl :
  exists r, translate_text ai text tl = Ok r.
Proof.
  unfold translate_text. destruct ai as [client|]; [|eauto].
  destruct (negb (truthy text) || (Z.of_nat (length text) <? 2)); [eauto|].
  unfold try_except. destruct (request_translation _ _ _); eauto.
Qed.

(** C8. [translate_text] never raises: for every client, text and target
    language it returns a value. Without a configured client the value is
    the text it was given, and so it is whenever the request to the
    translation service fails, be it that the call raises, that the
    response has no choice, or that the choice has no content. *)
Theorem translate_text_never_raises (ai : option AIClient) (text : str)
    (tl : option str) :
  (exists r, translate_text ai text tl = Ok r)
  /\ (ai = None -> translate_text ai text tl = Ok text)
  /\ (forall client e,
        ai = Some client ->
        request_translation client (request_lang client tl) text = Raise e ->
        translate_text ai text tl = Ok text).
Proof.
  split; [apply translate_text_total|]. split.
  - intros ->. reflexivity.
  - intros client e -> Hfail. unfold translate_text.
    destruct (negb (truthy text) || (Z.of_nat (length text) <? 2)); [reflexivity|].
    rewrite Hfail. reflexivity.
Qed.

Lemma translate_text_never_raises_witness :
  translate_text (Some failing_client) (lit "privet") None = Ok (lit "privet").
Proof.
  apply (proj2 (proj2 (translate_text_never_raises
                         (Some failing_client) (lit "privet") None))
           failing_client TransportError);
    reflexivity.
Defined.

Lemma truthy_length text :
  negb (truthy text) || (Z.of_nat (length text) <? 2) = (Z.of_nat (length text) <? 2).
Proof. destruct text as [|c [|c' text]]; reflexivity. Qed.

(** C10. The result of [translate_text] is the text the design describes:
    when a translation was obtained, the original text followed by the
    header line [[Translation]:] between two newlines and one newline, and
    the translation; in every other case (no client, a text of fewer than
    two characters, no choice or content, an empty translation, a failed
    call) the original text itself. In both cases the original text is a
    prefix of the result. *)
Theorem translate_text_keeps_original (ai : option AIClient) (text : str)
    (tl : option str) :
  translate_text ai text tl = Ok (translated_body ai text tl)
  /\ text `prefix_of` translated_body ai text tl
  /\ translation_header = [10; 10; 91; 84; 114; 97; 110; 115; 108; 97; 116;
                           105; 111; 110; 93; 58; 10]%N.
Proof.
  split; [|split; [|reflexivity]].
  - unfold translate_text, translated_body, obtained_translation.
    destruct ai as [client|]; [|reflexivity].
    rewrite truthy_length.
    destruct (Z.of_nat (length text) <? 2); [reflexivity|].
    unfold request_translation, try_except.
    destruct (completions_create client (request_lang client tl) text)
      as [[|[content|] rest]|e]; simpl; try reflexivity.
    destruct (strip content); reflexivity.
  - unfold translated_body.
    destruct (obtained_translation ai text tl) as [tr|].
    + exists (translation_header ++ tr). reflexivity.
    + exists []. rewrite app_nil_r. reflexivity.
Qed.

(** ** The media download manager *)

Lemma download_attempts_from_0 m :
  download_attempts m (seq 0 3) =
  match fetch m 0%nat with
  | Ok (p, ex) => (if truthy_opt p && ex then p else None, [Fetch (msg_id m) 0])
  | Raise e0 =>
      match fetch m 1%nat with
      | Ok (p, ex) =>
          (if truthy_opt p && ex then p else None,
           [Fetch (msg_id m) 0; Sleep (backoff e0 0); Fetch (msg_id m) 1])
      | Raise e1 =>
          (match fetch m 2%nat with
           | Ok (p, ex) => if truthy_opt p && ex then p else None
           | Raise _ => None
           end,
           [Fetch (msg_id m) 0; Sleep (backoff e0 0); Fetch (msg_id m) 1;
            Sleep (backoff e1 1); Fetch (msg_id m) 2])
      end
  end.
Proof.
  cbn [seq download_attempts Nat.ltb Nat.leb].
  destruct (fetch m 0%nat) as [[p0 x0]|e0].
  { destruct (truthy_opt p0 && x0); reflexivity. }
  destruct (fetch m 1%nat) as [[p1 x1]|e1].
  { destruct (truthy_opt p1 && x1), e0; reflexivity. }
  destruct (fetch m 2%nat) as [[p2 x2]|e2].
  { destruct (truthy_opt p2 && x2), e0, e1; reflexivity. }
  destruct e0, e1, e2; reflexivity.
Qed.

Lemma set_media_files_same w : set_media_files w (media_files w) = w.
Proof. destruct w; reflexivity. Qed.

(** C5. No call of [download_media] makes more than three fetch attempts. A
    download task for a photo or a document that the dedup check does not
    satisfy proceeds as follows. After a failed first or second attempt it
    sleeps, for exactly the wait the server asked for when the failure is a
    rate-limit signal and for [2^attempt] otherwise, and tries again. When the third attempt fails too the task returns no
    reference, leaves the media folder as it was and, awaited by the
    coordinator, leaves the scraper and its store as they were. When the
    first two attempts fail and the third one delivers an existing file,
    the task returns that file's path. *)
Theorem download_media_retry (files : MediaFiles) (channel : str) (m : Message) :
  (forall enabled,
     (fetch_count (snd (fst (download_media enabled files channel m))) <= 3)%nat)
  /\ (msg_media m = Some MessageMediaPhoto
      \/ msg_media m = Some MessageMediaDocument ->
      glob files channel (msg_id m) = [] ->
      exists r ev files',
        download_media true files channel m = (r, ev, files')
        /\ (forall e0, fetch m 0%nat = Raise e0 ->
              exists ev', ev = Fetch (msg_id m) 0 :: Sleep (backoff e0 0)
                               :: Fetch (msg_id m) 1 :: ev')
        /\ (forall e0 e1,
              fetch m 0%nat = Raise e0 -> fetch m 1%nat = Raise e1 ->
              ev = [Fetch (msg_id m) 0; Sleep (backoff e0 0);
                    Fetch (msg_id m) 1; Sleep (backoff e1 1);
                    Fetch (msg_id m) 2])
        /\ (forall e0 e1 e2,
              fetch m 0%nat = Raise e0 -> fetch m 1%nat = Raise e1 ->
              fetch m 2%nat = Raise e2 ->
              r = None /\ files' = files
              /\ forall w, scrape_media (state w) = true ->
                           media_files w = files ->
                           await_task channel w m = (w, None))
        /\ (forall e0 e1 p,
              fetch m 0%nat = Raise e0 -> fetch m 1%nat = Raise e1 ->
              fetch m 2%nat = Ok (Some p, true) -> truthy p = true ->
              r = Some p)).
Proof.
  pose proof (download_attempts_from_0 m) as Hatt.
  split.
  { intros sm. unfold download_media.
    destruct (msg_media m) as [media|]; [|cbn; lia].
    destruct (negb sm); [cbn; lia|].
    assert (Hcount : (fetch_count (snd (download_attempts m (seq 0 3))) <= 3)%nat).
    { rewrite Hatt.
      destruct (fetch m 0%nat) as [[p0 x0]|e0];
        [|destruct (fetch m 1%nat) as [[p1 x1]|e1]]; cbn; lia. }
    destruct media; try (cbn; lia);
      (destruct (glob files channel (msg_id m)); [|cbn; lia]);
      destruct (download_attempts m (seq 0 3)) as [[p|] ev]; exact Hcount. }
  intros Hmedia Hglob.
  assert (Hdl : forall sm fs, sm = true -> fs = files ->
            download_media sm fs channel m =
            let (r, ev) := download_attempts m (seq 0 3) in
            match r with
            | Some p => (Some p, ev, <[(channel, msg_id m) := [p]]> files)
            | None => (None, ev, files)
            end).
  { intros sm fs -> ->. unfold download_media.
    destruct Hmedia as [-> | ->]; simpl; rewrite Hglob; reflexivity. }
  destruct (download_attempts m (seq 0 3)) as [r ev] eqn:Hda.
  exists r, ev, (match r with
                 | Some p => <[(channel, msg_id m) := [p]]> files
                 | None => files
                 end).
  split. { rewrite Hdl by reflexivity. destruct r; reflexivity. }
  split.
  { intros e0 H0. rewrite H0 in Hatt.
    destruct (fetch m 1%nat) as [[p1 x1]|e1]; injection Hatt as _ ->; eauto. }
  split.
  { intros e0 e1 H0 H1. rewrite H0, H1 in Hatt. injection Hatt as _ ->.
    reflexivity. }
  split.
  { intros e0 e1 e2 H0 H1 H2. rewrite H0, H1, H2 in Hatt.
    injection Hatt as -> _. repeat split.
    intros w Hsm Hfs. unfold await_task.
    rewrite (Hdl _ _ Hsm Hfs). rewrite <- Hfs.
    rewrite set_media_files_same. reflexivity. }
  intros e0 e1 p H0 H1 H2 Hp. rewrite H0, H1, H2 in Hatt.
  injection Hatt as -> _. simpl. rewrite Hp. reflexivity.
Qed.

Lemma download_media_retry_witness :
  exists ev files',
    download_media true ∅ (lit "c")
      (sample_message 9 (Some MessageMediaPhoto) third_time_lucky)
    = (Some (lit "channels/c/media/9-photo.jpg"), ev, files')
    /\ ev = [Fetch 9 0; Sleep 7; Fetch 9 1; Sleep 2; Fetch 9 2].
Proof.
  destruct (proj2 (download_media_retry ∅ (lit "c")
                     (sample_message 9 (Some MessageMediaPhoto) third_time_lucky)))
    as (r & ev & files' & Hrun & _ & Hev & _ & Hok);
    [left; reflexivity | reflexivity |].
  exists ev, files'. split.
  - rewrite Hrun.
    rewrite (Hok (FloodWaitError 7) TransportError
               (lit "channels/c/media/9-photo.jpg"));
      reflexivity.
  - apply (Hev (FloodWaitError 7) TransportError); reflexivity.
Defined.

(** ** The admission gate *)

Lemma in_flight_fetching_count p : in_flight p = fetching_count (current p).
Proof. reflexivity. Qed.

Lemma fetching_count_cons mp l :
  fetching_count (mp :: l) = (if fetching mp then 1 else 0) + fetching_count l.
Proof.
  unfold fetching_count. simpl. destruct (fetching mp); simpl length; lia.
Qed.

Lemma fetching_count_alter ph' l : forall i m ph,
  l !! i = Some (m, ph) ->
  fetching_count (alter (fun mp => (fst mp, ph')) i l)
  = fetching_count l - (if fetching (m, ph) then 1 else 0)
    + (if fetching (m, ph') then 1 else 0).
Proof.
  induction l as [|mp l IH]; intros i m ph Hi; [discriminate|].
  destruct i as [|i]; simpl in Hi.
  - injection Hi as ->.
    change (fetching_count ((m, ph') :: l)
            = fetching_count ((m, ph) :: l) - (if fetching (m, ph) then 1 else 0)
              + (if fetching (m, ph') then 1 else 0)).
    rewrite !fetching_count_cons. lia.
  - change (fetching_count (mp :: alter (fun mp => (fst mp, ph')) i l)
            = fetching_count (mp :: l) - (if fetching (m, ph) then 1 else 0)
              + (if fetching (m, ph') then 1 else 0)).
    rewrite !fetching_count_cons, (IH _ _ _ Hi). lia.
Qed.

Lemma fetching_count_waiting (batch : list Message) :
  fetching_count (map (fun m => (m, Waiting)) batch) = 0.
Proof.
  induction batch as [|m batch IH]; [reflexivity|].
  simpl. rewrite fetching_count_cons, IH. reflexivity.
Qed.

Lemma fetching_count_finished l :
  forallb (fun mp => match snd mp with Finished => true | _ => false end) l = true ->
  fetching_count l = 0.
Proof.
  induction l as [|[m ph] l IH]; [reflexivity|].
  simpl. intros [Hph Hl]%andb_true_iff. rewrite fetching_count_cons, (IH Hl).
  destruct ph; try discriminate. reflexivity.
Qed.

Lemma fetching_count_nonneg l : 0 <= fetching_count l.
Proof. unfold fetching_count. lia. Qed.

Lemma gate_invariant_init tasks : gate_invariant (pool_init tasks).
Proof.
  unfold gate_invariant, pool_init.
  destruct (download_batches tasks) as [|batch rest];
    rewrite in_flight_fetching_count; simpl.
  - split; [unfold max_concurrent_downloads; lia | reflexivity].
  - rewrite fetching_count_waiting.
    split; [unfold max_concurrent_downloads; lia | reflexivity].
Qed.

Lemma gate_invariant_step p a p' :
  gate_invariant p -> pool_step p a = Some p' -> gate_invariant p'.
Proof.
  unfold gate_invariant. rewrite !in_flight_fetching_count.
  intros [Hpos Hsum] Hstep. destruct a as [i|i|]; simpl in Hstep.
  - destruct (current p !! i) as [[m []]|] eqn:Hi; try discriminate.
    destruct (Z.ltb_spec 0 (permits p)); [|discriminate].
    injection Hstep as <-. simpl.
    rewrite (fetching_count_alter _ _ _ _ _ Hi). simpl. lia.
  - destruct (current p !! i) as [[m []]|] eqn:Hi; try discriminate.
    injection Hstep as <-. simpl.
    rewrite (fetching_count_alter _ _ _ _ _ Hi). simpl.
    pose proof (fetching_count_nonneg (current p)). lia.
  - destruct (later p) as [|batch rest]; [discriminate|].
    destruct (all_finished p) eqn:Hfin; [|discriminate].
    injection Hstep as <-. simpl.
    rewrite fetching_count_waiting.
    rewrite (fetching_count_finished _ Hfin) in Hsum. lia.
Qed.

Lemma gate_invariant_run schedule : forall p p',
  gate_invariant p -> run_schedule p schedule = Some p' -> gate_invariant p'.
Proof.
  induction schedule as [|a schedule IH]; intros p p' Hinv Hrun; simpl in Hrun.
  - injection Hrun as <-. exact Hinv.
  - destruct (pool_step p a) as [p1|] eqn:Hstep; [|discriminate].
    exact (IH _ _ (gate_invariant_step _ _ _ Hinv Hstep) Hrun).
Qed.

(** C9. Whatever the number of download tasks and however the event loop
    schedules them, in every state the download phase can reach at most
    [max_concurrent_downloads = 5] attachment fetches are in flight. The
    bound is the semaphore's: the fetches in flight and the value of the
    semaphore add up to five, and once five fetches are in flight no further
    task is let through until one of them releases its permit. *)
Theorem downloads_in_flight_bounded (tasks : list Message)
    (schedule : list action) (p : Pool) :
  run_schedule (pool_init tasks) schedule = Some p ->
  in_flight p <= 5
  /\ in_flight p + permits p = max_concurrent_downloads
  /\ max_concurrent_downloads = 5
  /\ (in_flight p = 5 -> forall i, pool_step p (Acquire i) = None).
Proof.
  intros Hrun.
  destruct (gate_invariant_run _ _ _ (gate_invariant_init tasks) Hrun)
    as [Hpos Hsum].
  unfold max_concurrent_downloads in *. repeat split; try lia.
  intros Hfull i. simpl.
  destruct (current p !! i) as [[m []]|]; try reflexivity.
  destruct (Z.ltb_spec 0 (permits p)); [lia | reflexivity].
Qed.

Lemma downloads_in_flight_bounded_witness :
  exists p, run_schedule (pool_init seven_tasks) five_admitted = Some p
            /\ in_flight p = 5
            /\ pool_step p (Acquire 5) = None.
Proof.
  eexists. split; [reflexivity|].
  split; [reflexivity|].
  apply (downloads_in_flight_bounded seven_tasks five_admitted);
    reflexivity.
Defined.

(** ** The checkpoint file *)

(** C2, as stated, fails. A save of cursor 50 over a file holding cursor 0,
    stopped after the file was opened and sixteen chunks were written,
    leaves a file that ends in the middle of the [channels] object, after
    the key of the channel and before its cursor: neither the old state nor
    the new one. *)
Lemma save_state_partial_file :
  write_state_file one_channel_chunks (one_channel 50)
    (Some (concat (one_channel_chunks (one_channel 0)))) (Some 17%nat)
  = Some (lit "{" ++ [10; 32; 32]%N ++ quoted "api_id" ++ lit ": null,"
          ++ [10; 32; 32]%N ++ quoted "api_hash" ++ lit ": null,"
          ++ [10; 32; 32]%N ++ quoted "channels" ++ lit ": {"
          ++ [10; 32; 32; 32; 32]%N ++ quoted "c" ++ lit ": ")
  /\ ~ save_lands_or_is_absent one_channel_chunks (one_channel 50)
        (Some (concat (one_channel_chunks (one_channel 0)))) (Some 17%nat).
Proof.
  split; [reflexivity|].
  unfold save_lands_or_is_absent. intros [H|H]; vm_compute in H; discriminate H.
Qed.

(** C2, amended. [save_state] writes the file in place. A call that runs to
    completion leaves exactly the new serialized state. A call stopped
    before it opens the file leaves the file as it was. A call stopped
    later, after the file was opened and some number of chunks written,
    leaves none of the old content: the file holds what was written so far,
    a prefix of the new serialized state. *)
Theorem save_state_file_outcomes (json_chunks : ScraperState -> list str)
    (st : ScraperState) (old : option str) :
  write_state_file json_chunks st old None = Some (concat (json_chunks st))
  /\ write_state_file json_chunks st old (Some O) = old
  /\ forall k, exists written,
       write_state_file json_chunks st old (Some (S k)) = Some written
       /\ written `prefix_of` concat (json_chunks st)
       /\ written = concat (take k (json_chunks st)).
Proof.
  split; [reflexivity|]. split; [reflexivity|].
  intros k. exists (concat (take k (json_chunks st))).
  split; [reflexivity|]. split; [|reflexivity].
  exists (concat (drop k (json_chunks st))).
  rewrite <- concat_app, take_drop. reflexivity.
Qed.

(** ** The channel cursor *)

Lemma batch_insert_messages_frame w channel msgs :
  ai_client (batch_insert_messages w channel msgs) = ai_client w
  /\ state (batch_insert_messages w channel msgs) = state w
  /\ state_file (batch_insert_messages w channel msgs) = state_file w
  /\ media_files (batch_insert_messages w channel msgs) = media_files w.
Proof. destruct msgs; repeat split. Qed.

Lemma last_checkpoint_snoc ps m :
  last_checkpoint (ps ++ [m])
  = if (Z.of_nat (length ps) + 1) mod state_save_interval =? 0
    then Some (msg_id m) else last_checkpoint ps.
Proof.
  unfold last_checkpoint, state_save_interval.
  rewrite length_app. simpl length. set (n := length ps).
  replace (Z.of_nat n + 1) with (Z.of_nat (n + 1)) by lia.
  change 50 with (Z.of_nat 50). rewrite <- Nat2Z.inj_mod.
  pose proof (Nat.div_mod_eq (n + 1) 50) as Hdm1.
  pose proof (Nat.mod_upper_bound (n + 1) 50 ltac:(lia)) as Hub1.
  pose proof (Nat.div_mod_eq n 50) as Hdm.
  pose proof (Nat.mod_upper_bound n 50 ltac:(lia)) as Hub.
  destruct (Z.eqb_spec (Z.of_nat ((n + 1) mod 50)) 0) as [Hz|Hnz].
  - assert (Hm : ((n + 1) mod 50 = 0)%nat) by lia.
    destruct (Nat.ltb_spec (n + 1) 50) as [Hlt|Hge].
    { rewrite Nat.mod_small in Hm by lia. lia. }
    replace (50 * ((n + 1) / 50) - 1)%nat with (n + 0)%nat by lia.
    rewrite lookup_app_r by (subst n; lia).
    replace (n + 0 - length ps)%nat with 0%nat by (subst n; lia).
    reflexivity.
  - assert (Hm : ((n + 1) mod 50 <> 0)%nat) by lia.
    assert (Hq : ((n + 1) / 50 = n / 50)%nat) by lia.
    rewrite Hq.
    destruct (Nat.ltb_spec (n + 1) 50) as [Hlt|Hge];
      destruct (Nat.ltb_spec n 50) as [Hlt'|Hge']; try reflexivity; try lia.
    rewrite lookup_app_l by (subst n; lia). reflexivity.
Qed.

Lemma checkpointed_again channel s cp i :
  set_channels (<[channel := i]> (channels (checkpointed channel s cp)))
               (checkpointed channel s cp)
  = checkpointed channel s (Some i).
Proof.
  destruct cp as [j|]; [|reflexivity].
  unfold checkpointed, set_channels. simpl.
  rewrite insert_insert_eq. reflexivity.
Qed.

Lemma processed_records_snoc ai lang force ys m :
  processed_records ai lang force (ys ++ [m])
  = processed_records ai lang force ys
    ++ (if processable ai lang force m then [m] else []).
Proof. unfold processed_records. rewrite List.filter_app. reflexivity. Qed.

(** The cursor during an incremental traversal: after any number of
    yielded records, the state in memory and the file are those of the last
    checkpoint, or untouched when none was taken. *)
Lemma incremental_loop_cursor channel lang w offset_id yielded :
  let wl := incremental_loop channel lang w offset_id yielded in
  let ps := processed_records (ai_client w) lang false yielded in
  ai_client (fst wl) = ai_client w
  /\ processed_messages (snd wl) = Z.of_nat (length ps)
  /\ last_message_id (snd wl) = default offset_id (msg_id <$> list.last ps)
  /\ state (fst wl) = checkpointed channel (state w) (last_checkpoint ps)
  /\ state_file (fst wl)
     = match last_checkpoint ps with
       | Some _ => Some (state (fst wl))
       | None => state_file w
       end.
Proof.
  induction yielded as [|m ys IH] using rev_ind.
  - repeat split.
  - cbv zeta in *. unfold incremental_loop in *.
    rewrite fold_left_app, processed_records_snoc. simpl fold_left.
    destruct (fold_left (incremental_body channel lang) ys (w, loop_init offset_id))
      as [w1 l1].
    simpl fst in IH. simpl snd in IH.
    destruct IH as (Hai & Hn & Hlast & Hst & Hfile).
    unfold incremental_body, processable. rewrite Hai.
    destruct (make_message_data (ai_client w) lang false m) as [d|e].
    2:{ rewrite app_nil_r. simpl. auto. }
    set (ps := processed_records (ai_client w) lang false ys) in *.
    set (flushed := if batch_size <=? Z.of_nat (length (message_batch l1 ++ [d]))
                    then (batch_insert_messages w1 channel (message_batch l1 ++ [d]), [])
                    else (w1, message_batch l1 ++ [d])).
    assert (Hfl : ai_client (fst flushed) = ai_client w1
                  /\ state (fst flushed) = state w1
                  /\ state_file (fst flushed) = state_file w1).
    { subst flushed. destruct (batch_size <=? _); simpl; [|auto].
      pose proof (batch_insert_messages_frame w1 channel (message_batch l1 ++ [d])).
      tauto. }
    destruct flushed as [w2 batch2]. simpl fst in Hfl.
    destruct Hfl as (Hai2 & Hst2 & Hfile2).
    rewrite last_checkpoint_snoc, length_app, last_snoc. simpl length.
    replace (Z.of_nat (length ps + 1)) with (Z.of_nat (length ps) + 1) by lia.
    rewrite Hn.
    destruct ((Z.of_nat (length ps) + 1) mod state_save_interval =? 0); simpl.
    + rewrite Hai2, Hst2, Hst, Hai. rewrite checkpointed_again. auto.
    + rewrite Hai2, Hst2, Hfile2, Hai. rewrite Hfile, Hst. auto.
Qed.

(** C1, evaluated. On a channel of sixty messages read from cursor 0, when
    the fiftieth record has been processed the checkpoint on disk holds
    cursor 50 while the channel's table holds no row: the first flush is due
    at a hundred records. A process that dies there and is restarted reads
    cursor 50, runs to the end, and stores the ids 51 to 60 alone: the
    records 1 to 50 are at or below the saved cursor and are never
    persisted. *)
Theorem checkpoint_ahead_of_flush :
  let w50 := fst (incremental_loop channel_c None fresh_scraper 0
                    (take 50 (history sixty_messages))) in
  saved_cursor w50 channel_c = Some 50
  /\ stored_ids w50 channel_c = []
  /\ let w' := fst (scrape_channel (restart w50) sixty_messages channel_c 50
                      false None) in
     stored_ids w' channel_c = [51; 52; 53; 54; 55; 56; 57; 58; 59; 60]
     /\ saved_cursor w' channel_c = Some 60.
Proof. vm_compute. repeat split. Qed.

(** C3, as stated, fails. Pagination that breaks after fifty-five records of
    a run started at cursor 0 leaves the cursor at 50, in memory and on
    disk, not at 0; nothing has been stored. The value returned, the empty
    list, is also what a run returns that reaches its end without a failure
    of pagination and has collected nothing, its one record having been
    skipped. *)
Lemma pagination_failure_moves_cursor :
  let run := scrape_channel fresh_scraper sixty_messages_broken channel_c 0
               false None in
  channels (state fresh_scraper) !! channel_c = Some 0
  /\ saved_cursor fresh_scraper channel_c = Some 0
  /\ snd run = RetList []
  /\ channels (state (fst run)) !! channel_c = Some 50
  /\ saved_cursor (fst run) channel_c = Some 50
  /\ saved_cursor (fst run) channel_c <> saved_cursor fresh_scraper channel_c
  /\ stored_ids (fst run) channel_c = []
  /\ snd (scrape_channel fresh_scraper unreadable_channel channel_c 0 false None)
     = RetList [].
Proof. vm_compute. repeat split; discriminate. Qed.

(** C3, amended. An incremental run in which the channel cannot be resolved
    or pagination raises aborts and returns the empty list. The cursor it
    leaves, in memory and on disk, is the one of the last checkpoint the
    run took before the failure, a checkpoint being taken at every fiftieth
    record processed; when fewer than fifty records were processed before
    the failure the state and the checkpoint file are the same as before
    the run. *)
Theorem scrape_channel_pagination_failure (w : World) (t : Transport)
    (channel : str) (offset_id : Z) (force : bool) (lang : option str)
    (k : nat) :
  force && limit_set (state w) = false ->
  total_messages t <> 0 ->
  pagination_fault t = Some k ->
  let ps := match get_entity t with
            | Ok _ => processed_records (ai_client w) lang false
                        (take k (List.filter (fun m => offset_id <? msg_id m)
                                             (history t)))
            | Raise _ => []
            end in
  exists w',
    scrape_channel w t channel offset_id force lang = (w', RetList [])
    /\ state w' = checkpointed channel (state w) (last_checkpoint ps)
    /\ saved_cursor w' channel
       = match last_checkpoint ps with
         | Some i => Some i
         | None => saved_cursor w channel
         end
    /\ ((length ps < 50)%nat -> state w' = state w /\ state_file w' = state_file w).
Proof.
  intros Hmode Htotal Hfault ps. unfold scrape_channel.
  destruct (get_entity t) as [[]|e].
  2:{ exists w. subst ps. repeat split. }
  rewrite Hmode.
  destruct (Z.eqb_spec (total_messages t) 0) as [|_]; [contradiction|].
  unfold iter_messages_after, paginate. rewrite Hfault.
  pose proof (incremental_loop_cursor channel lang w offset_id
                (take k (List.filter (fun m => offset_id <? msg_id m) (history t))))
    as Hinv.
  cbv zeta in Hinv. fold ps in Hinv.
  destruct Hinv as (_ & _ & _ & Hst & Hfile).
  eexists. split; [reflexivity|]. split; [exact Hst|]. split.
  - unfold saved_cursor. rewrite Hfile.
    destruct (last_checkpoint ps) as [i|] eqn:Hcp; [|reflexivity].
    simpl. rewrite Hst. simpl. apply lookup_insert_eq.
  - intros Hfew. unfold last_checkpoint in *.
    destruct (Nat.ltb_spec (length ps) 50) as [_|]; [|lia].
    rewrite Hfile. split; [exact Hst | reflexivity].
Qed.

Lemma scrape_channel_pagination_failure_witness :
  exists w',
    scrape_channel fresh_scraper sixty_messages_broken channel_c 0 false None
    = (w', RetList [])
    /\ saved_cursor w' channel_c = Some 50.
Proof.
  destruct (scrape_channel_pagination_failure fresh_scraper
              sixty_messages_broken channel_c 0 false None 55)
    as (w' & Hrun & _ & Hcur & _);
    [reflexivity | discriminate | reflexivity |].
  exists w'. split; [exact Hrun | exact Hcur].
Defined.

(** ** Batches *)

Lemma batches_concat_take {A} (l : list A) (c : nat) :
  concat (map (fun k => take 10 (drop (k * 10) l)) (seq 0 c)) = take (c * 10) l.
Proof.
  induction c as [|c IH]; [reflexivity|].
  rewrite seq_S, map_app, concat_app, IH. simpl.
  rewrite app_nil_r, take_take_drop. f_equal. lia.
Qed.

Lemma download_batches_concat {A} (l : list A) :
  concat (download_batches l) = l.
Proof.
  unfold download_batches, range_step, slice. rewrite map_map.
  rewrite batches_concat_take. apply take_ge.
  pose proof (Nat.div_mod_eq (length l + 10 - 1) 10).
  pose proof (Nat.mod_upper_bound (length l + 10 - 1) 10 ltac:(lia)).
  lia.
Qed.

Lemma fold_left_concat {A B} (f : A -> B -> A) (bs : list (list B)) : forall a,
  fold_left (fun acc b => fold_left f b acc) bs a = fold_left f (concat bs) a.
Proof.
  induction bs as [|b bs IH]; intros a; [reflexivity|].
  simpl. rewrite fold_left_app. apply IH.
Qed.

Lemma download_all_flat channel w tasks :
  download_all channel w tasks = fold_left (await_download channel) tasks (w, ∅).
Proof.
  unfold download_all. rewrite fold_left_concat, download_batches_concat.
  reflexivity.
Qed.

(** ** Rows outside a window *)

Lemma outside_insert window t m :
  in_window window (message_id m) = true ->
  List.filter (outside window) (insert_or_ignore t m)
  = List.filter (outside window) t.
Proof.
  intros Hin. unfold insert_or_ignore.
  destruct (has_message t (message_id m)); [reflexivity|].
  rewrite List.filter_app. simpl. unfold outside at 2. simpl.
  rewrite Hin. simpl. apply app_nil_r.
Qed.

Lemma outside_executemany window msgs : forall t,
  Forall (fun m => in_window window (message_id m) = true) msgs ->
  List.filter (outside window) (executemany_insert t msgs)
  = List.filter (outside window) t.
Proof.
  induction msgs as [|m msgs IH]; intros t Hall; [reflexivity|].
  apply List.Forall_cons_iff in Hall as [Hm Hall].
  unfold executemany_insert in *. simpl.
  rewrite (IH _ Hall). apply outside_insert. exact Hm.
Qed.

Lemma outside_update window t mid p :
  in_window window mid = true ->
  List.filter (outside window) (execute_update_media_path t mid p)
  = List.filter (outside window) t.
Proof.
  intros Hin. unfold execute_update_media_path.
  induction t as [|r t IH]; [reflexivity|].
  simpl. rewrite IH. unfold update_media_path_row.
  destruct (Z.eqb_spec (message_id (data r)) mid) as [Heq|_]; [|reflexivity].
  unfold outside. simpl. rewrite Heq, Hin. reflexivity.
Qed.

Lemma has_message_update t mid p i :
  has_message (execute_update_media_path t mid p) i = has_message t i.
Proof.
  unfold has_message, execute_update_media_path.
  induction t as [|r t IH]; [reflexivity|].
  simpl. rewrite IH. f_equal. unfold update_media_path_row.
  destruct (message_id (data r) =? mid); reflexivity.
Qed.

Lemma window_step_refl window channel w : window_step window channel w w.
Proof. unfold window_step. auto. Qed.

Lemma window_step_trans window channel w1 w2 w3 :
  window_step window channel w1 w2 -> window_step window channel w2 w3 ->
  window_step window channel w1 w3.
Proof.
  unfold window_step. intros (A1 & B1 & C1 & D1 & E1) (A2 & B2 & C2 & D2 & E2).
  repeat split; try congruence. auto.
Qed.

Lemma window_step_batch_insert window channel w msgs :
  Forall (fun m => in_window window (message_id m) = true) msgs ->
  window_step window channel w (batch_insert_messages w channel msgs).
Proof.
  intros Hall. destruct (batch_insert_messages_frame w channel msgs)
    as (A & B & C & _).
  unfold window_step. repeat split; try assumption.
  - rewrite table_batch_insert. apply outside_executemany. exact Hall.
  - intros i Hi. rewrite table_batch_insert, has_message_executemany, Hi.
    reflexivity.
Qed.

Lemma window_step_update window channel w mid p :
  in_window window mid = true ->
  window_step window channel w (update_media_path w channel mid p).
Proof.
  intros Hin. unfold window_step, update_media_path.
  rewrite table_set_table. repeat split.
  - apply outside_update. exact Hin.
  - intros i Hi. rewrite has_message_update. exact Hi.
Qed.

Lemma window_step_media_files window channel w f :
  window_step window channel w (set_media_files w f).
Proof. unfold window_step. auto. Qed.

Lemma window_step_await_task window channel w m :
  in_window window (msg_id m) = true ->
  window_step window channel w (fst (await_task channel w m)).
Proof.
  intros Hin. unfold await_task.
  destruct (download_media _ _ _ _) as [[[p|] ev] files]; simpl.
  - destruct (truthy p); simpl.
    + eapply window_step_trans; [apply window_step_media_files|].
      apply window_step_update. exact Hin.
    + apply window_step_media_files.
  - apply window_step_media_files.
Qed.

Lemma window_step_downloads window channel tasks : forall w paths,
  Forall (fun m => in_window window (msg_id m) = true) tasks ->
  window_step window channel w
    (fst (fold_left (await_download channel) tasks (w, paths))).
Proof.
  induction tasks as [|m tasks IH]; intros w paths Hall.
  - apply window_step_refl.
  - apply List.Forall_cons_iff in Hall as [Hm Hall]. simpl.
    pose proof (window_step_await_task window channel w m Hm) as Hstep.
    destruct (await_task channel w m) as [w1 [p|]]; simpl in Hstep;
      (eapply window_step_trans; [exact Hstep | apply IH; exact Hall]).
Qed.

(** ** The force-rescrape traversal *)

Lemma make_message_data_id ai lang force m d :
  make_message_data ai lang force m = Ok d -> message_id d = msg_id m.
Proof.
  unfold make_message_data.
  destruct (get_sender m) as [sender|]; cbn [bind]; [|discriminate].
  match goal with |- context [bind ?r _] => destruct r as [text|] end;
    cbn [bind]; [|discriminate].
  intros [= <-]. reflexivity.
Qed.

Lemma in_window_In window m : In m window -> in_window window (msg_id m) = true.
Proof.
  intros Hin. apply existsb_exists. exists m. split; [exact Hin | apply Z.eqb_refl].
Qed.

Lemma in_window_all window :
  Forall (fun m => in_window window (msg_id m) = true) window.
Proof. apply List.Forall_forall. intros m. apply in_window_In. Qed.

Lemma force_loop_invariant window channel lang w offset_id ys :
  Forall (fun m => in_window window (msg_id m) = true) ys ->
  let wl := force_loop channel lang w offset_id ys in
  window_step window channel w (fst wl)
  /\ Forall (fun d => in_window window (message_id d) = true)
            (message_batch (snd wl))
  /\ Forall (fun m => in_window window (msg_id m) = true) (media_tasks (snd wl))
  /\ (forall m, In m (processed_records (ai_client w) lang true ys) ->
        has_message (table (fst wl) channel) (msg_id m) = true
        \/ existsb (fun d => message_id d =? msg_id m) (message_batch (snd wl))
           = true)
  /\ map message_id (collected_messages (snd wl))
     = map msg_id (processed_records (ai_client w) lang true ys).
Proof.
  induction ys as [|m ys IH] using rev_ind; intros Hall.
  - cbn. split; [apply window_step_refl|]. split; [constructor|].
    split; [constructor|]. split; [intros m []|reflexivity].
  - apply Forall_app in Hall as [Hys Hm]. apply List.Forall_cons_iff in Hm as [Hm _].
    specialize (IH Hys). cbv zeta in *. unfold force_loop in *.
    rewrite fold_left_app, processed_records_snoc. simpl fold_left.
    destruct (fold_left (force_body channel lang) ys (w, loop_init offset_id))
      as [w1 l1].
    simpl fst in IH. simpl snd in IH.
    destruct IH as (Hstep & Hbatch & Htasks & Hkept & Hcoll).
    pose proof Hstep as (Hai & _).
    unfold force_body, processable. rewrite Hai.
    destruct (make_message_data (ai_client w) lang true m) as [d|e] eqn:Hd.
    2:{ rewrite app_nil_r. simpl. auto. }
    pose proof (make_message_data_id _ _ _ _ _ Hd) as Hid.
    assert (Hbatch' : Forall (fun d => in_window window (message_id d) = true)
                             (message_batch l1 ++ [d])).
    { apply Forall_app. split; [exact Hbatch|].
      constructor; [|constructor]. rewrite Hid. exact Hm. }
    assert (Htasks' : Forall (fun m => in_window window (msg_id m) = true)
                             (if wants_download w1 m then media_tasks l1 ++ [m]
                              else media_tasks l1)).
    { destruct (wants_download w1 m); [|exact Htasks].
      apply Forall_app. split; [exact Htasks|]. constructor; [exact Hm|constructor]. }
    assert (Hin' : forall m', In m' (processed_records (ai_client w) lang true ys ++ [m]) ->
              has_message (table w1 channel) (msg_id m') = true
              \/ existsb (fun d => message_id d =? msg_id m') (message_batch l1 ++ [d])
                 = true).
    { intros m' [Hold|[<-|[]]]%in_app_or.
      - destruct (Hkept m' Hold) as [H|H]; [left; exact H|].
        right. rewrite existsb_app, H. reflexivity.
      - right. rewrite existsb_app. simpl. rewrite Hid, Z.eqb_refl.
        apply orb_true_iff. right. reflexivity. }
    destruct (batch_size <=? Z.of_nat (length (message_batch l1 ++ [d]))); simpl.
    + split.
      { eapply window_step_trans; [exact Hstep|].
        apply window_step_batch_insert. exact Hbatch'. }
      split; [constructor|]. split; [exact Htasks'|]. split.
      * intros m' Hm'. left. rewrite table_batch_insert, has_message_executemany.
        apply orb_true_iff. exact (Hin' m' Hm').
      * rewrite !map_app, Hcoll. simpl. rewrite Hid. reflexivity.
    + split; [exact Hstep|]. split; [exact Hbatch'|]. split; [exact Htasks'|].
      split; [exact Hin'|].
      rewrite !map_app, Hcoll. simpl. rewrite Hid. reflexivity.
Qed.

Lemma flush_and_download_eq channel w l :
  flush_and_download channel (w, l)
  = fold_left (await_download channel) (media_tasks l)
              (batch_insert_messages w channel (message_batch l), ∅).
Proof.
  unfold flush_and_download.
  destruct (message_batch l) as [|d b]; destruct (media_tasks l) as [|m ts];
    try reflexivity; apply download_all_flat.
Qed.

Lemma attach_media_paths_ids paths l :
  map message_id (attach_media_paths paths l) = map message_id l.
Proof.
  unfold attach_media_paths. rewrite map_map. apply map_ext.
  intros d. destruct (paths !! message_id d); reflexivity.
Qed.




(** ** The repair pass *)

(** C7, as stated, fails. After a first run has stored message 7 without a
    media reference, the store holds [D = 1] record with a media
    classification and no reference. When the message has since been
    deleted the repair pass creates no download task. When the message
    carries a poll the pass creates its one task, no fetch fails, and the
    record is still without a reference afterwards. *)
Lemma rescrape_media_leaves_gaps :
  select_missing_media (table (scraped photo_channel_down) channel_c) = [7]
  /\ snd (rescrape_media (scraped photo_channel_down) emptied_channel channel_c) = []
  /\ select_missing_media (table (scraped poll_channel) channel_c) = [7]
  /\ length (snd (rescrape_media (scraped poll_channel) poll_channel channel_c))
     = 1%nat
  /\ select_missing_media
       (table (fst (rescrape_media (scraped poll_channel) poll_channel channel_c))
              channel_c) = [7]
  /\ length (snd (rescrape_media (scraped photo_channel_down) emptied_channel
                    channel_c))
     <> length (select_missing_media (table (scraped photo_channel_down) channel_c))
  /\ select_missing_media
       (table (fst (rescrape_media (scraped poll_channel) poll_channel channel_c))
              channel_c) <> [].
Proof. vm_compute. repeat split; discriminate. Qed.

Lemma rescrape_batches_flat channel t bs : forall w submitted,
  fold_left (rescrape_batch channel t) bs (w, submitted)
  = (fold_left (fun w m => fst (await_task channel w m))
               (omap valid_message (get_messages_by_ids t (concat bs))) w,
     submitted ++ omap valid_message (get_messages_by_ids t (concat bs))).
Proof.
  induction bs as [|b bs IH]; intros w submitted.
  - simpl. rewrite app_nil_r. reflexivity.
  - simpl fold_left. rewrite IH.
    unfold get_messages_by_ids. simpl concat.
    rewrite map_app, omap_app, fold_left_app, app_assoc. reflexivity.
Qed.

Lemma get_db_connection_table w channel :
  table (get_db_connection w channel) channel = table w channel
  /\ state (get_db_connection w channel) = state w
  /\ media_files (get_db_connection w channel) = media_files w.
Proof.
  unfold get_db_connection. destruct (db w !! channel) eqn:Hdb.
  - repeat split.
  - rewrite table_set_table. unfold table. rewrite Hdb. repeat split.
Qed.

Lemma length_omap_le {A B} (f : A -> option B) (l : list A) :
  (length (omap f l) <= length l)%nat.
Proof.
  induction l as [|a l IH]; [reflexivity|].
  change (omap f (a :: l))
    with (match f a with Some y => y :: omap f l | None => omap f l end).
  destruct (f a); simpl length; lia.
Qed.

Lemma missing_media_update_row mid p r :
  missing_media (update_media_path_row mid p r)
  = missing_media r && negb (message_id (data r) =? mid).
Proof.
  unfold update_media_path_row.
  destruct (message_id (data r) =? mid).
  - unfold missing_media at 1. simpl.
    destruct (media_type (data r)); rewrite andb_false_r; reflexivity.
  - rewrite andb_true_r. reflexivity.
Qed.

Lemma message_id_update_row mid p r :
  message_id (data (update_media_path_row mid p r)) = message_id (data r).
Proof.
  unfold update_media_path_row.
  destruct (message_id (data r) =? mid); reflexivity.
Qed.

Lemma select_missing_update t mid p :
  select_missing_media (execute_update_media_path t mid p)
  = List.filter (fun i => negb (i =? mid)) (select_missing_media t).
Proof.
  unfold select_missing_media, execute_update_media_path.
  induction t as [|r t IH]; [reflexivity|].
  cbn [map List.filter]. rewrite missing_media_update_row.
  destruct (missing_media r); cbn [andb map List.filter].
  - destruct (message_id (data r) =? mid) eqn:Hmid; cbn [negb map];
      rewrite IH; [reflexivity|].
    rewrite message_id_update_row. reflexivity.
  - exact IH.
Qed.

Lemma files_named_glob files channel mid p ps :
  files_named files -> glob files channel mid = p :: ps -> truthy p = true.
Proof.
  unfold glob. intros Hnamed Hglob.
  destruct (files !! (channel, mid)) as [qs|] eqn:Hk; [|discriminate].
  simpl in Hglob. subst qs.
  specialize (Hnamed _ _ Hk). apply List.Forall_cons_iff in Hnamed. tauto.
Qed.

Lemma files_named_insert files k p :
  files_named files -> truthy p = true -> files_named (<[k := [p]]> files).
Proof.
  intros Hnamed Hp k' ps. rewrite lookup_insert. case_decide.
  - intros [= <-]. constructor; [exact Hp | constructor].
  - apply Hnamed.
Qed.

Lemma await_task_succeeds channel w m :
  scrape_media (state w) = true -> files_named (media_files w) ->
  downloadable m ->
  exists p files',
    await_task channel w m
    = (update_media_path (set_media_files w files') channel (msg_id m) p, Some p)
    /\ files_named files'.
Proof.
  intros Hsm Hnamed (Hmedia & p & Hfetch & Hp).
  unfold await_task, download_media. rewrite Hsm. cbn [negb].
  assert (Hgo : forall A (x y : A),
            match msg_media m with
            | Some MessageMediaPhoto | Some MessageMediaDocument => x
            | _ => y
            end = x).
  { intros A x y. destruct Hmedia as [-> | ->]; reflexivity. }
  destruct (glob (media_files w) channel (msg_id m)) as [|q qs] eqn:Hglob.
  - rewrite download_attempts_from_0, Hfetch. cbn [truthy_opt]. rewrite Hp.
    cbn [andb].
    exists p, (<[(channel, msg_id m) := [p]]> (media_files w)).
    split; [|apply files_named_insert; assumption].
    destruct Hmedia as [-> | ->]; rewrite Hp; reflexivity.
  - pose proof (files_named_glob _ _ _ _ _ Hnamed Hglob) as Hq.
    exists q, (media_files w). split; [|exact Hnamed].
    destruct Hmedia as [-> | ->]; rewrite Hq; reflexivity.
Qed.

Lemma filter_filter_and {A} (f g : A -> bool) (l : list A) :
  List.filter f (List.filter g l) = List.filter (fun x => g x && f x) l.
Proof.
  induction l as [|x l IH]; [reflexivity|].
  simpl. destruct (g x); simpl; [destruct (f x)|]; rewrite IH; reflexivity.
Qed.

Lemma filter_all_true {A} (f : A -> bool) (l : list A) :
  (forall x, In x l -> f x = true) -> List.filter f l = l.
Proof.
  induction l as [|x l IH]; intros Hall; [reflexivity|].
  simpl. rewrite (Hall x) by (left; reflexivity).
  rewrite IH; [reflexivity|]. intros y Hy. apply Hall. right. exact Hy.
Qed.

Lemma filter_all_false {A} (f : A -> bool) (l : list A) :
  (forall x, In x l -> f x = false) -> List.filter f l = [].
Proof.
  induction l as [|x l IH]; intros Hall; [reflexivity|].
  simpl. rewrite (Hall x) by (left; reflexivity).
  apply IH. intros y Hy. apply Hall. right. exact Hy.
Qed.

Lemma repair_fold channel ms : forall w,
  scrape_media (state w) = true -> files_named (media_files w) ->
  Forall downloadable ms ->
  select_missing_media
    (table (fold_left (fun w m => fst (await_task channel w m)) ms w) channel)
  = List.filter (fun i => negb (existsb (fun m => msg_id m =? i) ms))
                (select_missing_media (table w channel)).
Proof.
  induction ms as [|m ms IH]; intros w Hsm Hnamed Hall.
  - simpl. symmetry. apply filter_all_true. reflexivity.
  - apply List.Forall_cons_iff in Hall as [Hm Hall].
    destruct (await_task_succeeds channel w m Hsm Hnamed Hm)
      as (p & files' & Hrun & Hnamed').
    simpl fold_left. rewrite Hrun. cbn [fst].
    rewrite IH; [| exact Hsm | exact Hnamed' | exact Hall].
    unfold update_media_path at 1. rewrite table_set_table.
    change (table (set_media_files w files') channel) with (table w channel).
    rewrite select_missing_update, filter_filter_and.
    apply List.filter_ext. intros i. simpl existsb.
    rewrite negb_orb, (Z.eqb_sym i). reflexivity.
Qed.

Lemma repairable_tasks t ids :
  Forall (repairable t) ids ->
  exists ms, omap valid_message (get_messages_by_ids t ids) = ms
             /\ map msg_id ms = ids /\ Forall downloadable ms.
Proof.
  induction ids as [|i ids IH]; intros Hall.
  - exists []. repeat split. constructor.
  - apply List.Forall_cons_iff in Hall as [(m & Hfind & Hm) Hall].
    destruct (IH Hall) as (ms & Hms & Hids & Hdl).
    exists (m :: ms). unfold get_messages_by_ids in *.
    pose proof (List.find_some _ _ Hfind) as [_ Hid%Z.eqb_eq].
    split; [|split].
    + cbn [map]. rewrite Hfind.
      change (omap valid_message (Some m :: ?l))
        with (match valid_message (Some m) with
              | Some y => y :: omap valid_message l
              | None => omap valid_message l
              end).
      destruct Hm as [[Hmedia | Hmedia] _]; cbn [valid_message];
        rewrite Hmedia; cbn [is_webpage]; rewrite Hms; reflexivity.
    + simpl. rewrite Hid, Hids. reflexivity.
    + constructor; assumption.
Qed.

(** C7, amended. The repair pass selects the [D] records stored with a
    media classification other than web page and no media reference, and
    creates one download task for each of them whose message the transport
    still returns with media other than a web page: at most [D] tasks. With
    media scraping enabled, when every selected record's message is still
    there, carries a photo or a document, and is fetched successfully, the
    pass creates exactly [D] tasks and no record with a media classification
    other than web page is left without a reference. *)
Theorem rescrape_media_repairs (w : World) (t : Transport) (channel : str) :
  let ids := select_missing_media (table w channel) in
  let run := rescrape_media w t channel in
  (length (snd run) <= length ids)%nat
  /\ (get_entity t = Ok tt ->
      snd run = omap valid_message (get_messages_by_ids t ids))
  /\ (get_entity t = Ok tt ->
      scrape_media (state w) = true ->
      files_named (media_files w) ->
      Forall (repairable t) ids ->
      length (snd run) = length ids
      /\ select_missing_media (table (fst run) channel) = []).
Proof.
  intros ids run. subst run. unfold rescrape_media.
  destruct (get_db_connection_table w channel) as (Htab & Hst & Hfiles).
  rewrite Htab. fold ids.
  set (w0 := get_db_connection w channel) in *.
  destruct ids as [|i ids'] eqn:Hids.
  { cbn [fst snd]. rewrite Htab. fold ids. rewrite Hids. repeat split.
    simpl. lia. }
  rewrite <- Hids.
  destruct (get_entity t) as [[]|e].
  2:{ cbn [fst snd length]. split; [lia|]. split; intros H; discriminate H. }
  rewrite rescrape_batches_flat, download_batches_concat. cbn [fst snd app].
  split.
  { etransitivity; [apply length_omap_le|].
    unfold get_messages_by_ids. rewrite length_map. reflexivity. }
  split; [reflexivity|].
  intros _ Hsm Hnamed Hall.
  destruct (repairable_tasks t ids Hall) as (ms & -> & Hmap & Hdl).
  split.
  { rewrite <- Hmap. rewrite length_map. reflexivity. }
  rewrite repair_fold; [| rewrite Hst; exact Hsm
                        | rewrite Hfiles; exact Hnamed | exact Hdl].
  rewrite Htab. fold ids. apply filter_all_false.
  intros j Hj. rewrite <- Hmap in Hj. apply in_map_iff in Hj as (m & <- & Hin).
  apply negb_false_iff, existsb_exists.
  exists m. split; [exact Hin | apply Z.eqb_refl].
Qed.

Lemma rescrape_media_repairs_witness :
  select_missing_media (table (scraped photo_channel_down) channel_c) = [7]
  /\ length (snd (rescrape_media (scraped photo_channel_down) photo_channel
                    channel_c)) = 1%nat
  /\ select_missing_media
       (table (fst (rescrape_media (scraped photo_channel_down) photo_channel
                      channel_c)) channel_c) = [].
Proof.
  split; [reflexivity|].
  apply (proj2 (proj2 (rescrape_media_repairs (scraped photo_channel_down)
                         photo_channel channel_c))).
  - reflexivity.
  - reflexivity.
  - intros k ps Hk. change (media_files (scraped photo_channel_down)) with
      (∅ : MediaFiles) in Hk.
    rewrite lookup_empty in Hk. discriminate Hk.
  - constructor; [|constructor].
    eexists. split; [reflexivity|]. split; [left; reflexivity|].
    eexists. split; reflexivity.
Defined.

(** * Further properties of the code *)

(** ** The local store: inserts and updates *)

(** X1. [batch_insert_messages] only appends. The channel's table before the
    flush is a prefix of the table after it, so no stored row is removed,
    reordered or rewritten (a media reference already stored is not reset by
    a record scraped again). The ids stored afterwards are those stored
    before and those of the batch, every added row carries a record of the
    batch whose id was not stored, and at most one row per record is
    added. *)
Theorem batch_insert_messages_appends (w : World) (channel : str)
    (messages : list MessageData) :
  let t := table w channel in
  let t' := table (batch_insert_messages w channel messages) channel in
  t `prefix_of` t'
  /\ (length t' <= length t + length messages)%nat
  /\ (forall i, has_message t' i
                = has_message t i || existsb (fun m => message_id m =? i) messages)
  /\ (forall r, In r t' ->
        In r t \/ (In (data r) messages
                   /\ has_message t (message_id (data r)) = false)).
Proof.
  intros t t'. subst t t'. rewrite table_batch_insert.
  split; [apply executemany_insert_prefix|]. split.
  - generalize (table w channel). induction messages as [|m msgs IH]; intros t.
    + simpl. lia.
    + unfold executemany_insert in *. simpl. etransitivity; [apply IH|].
      unfold insert_or_ignore. destruct (has_message t (message_id m));
        rewrite ?length_app; simpl; lia.
  - split; [intros i; apply has_message_executemany|].
    intros r. apply executemany_insert_origin.
Qed.

Lemma has_message_In t i :
  has_message t i = true <-> In i (map (fun r => message_id (data r)) t).
Proof.
  unfold has_message. rewrite existsb_exists, in_map_iff. split.
  - intros (r & Hr & Heq%Z.eqb_eq). exists r. split; assumption.
  - intros (r & Heq & Hr). exists r. split; [exact Hr | apply Z.eqb_eq, Heq].
Qed.

Lemma NoDup_snoc {A} (l : list A) (x : A) :
  List.NoDup l -> ~ In x l -> List.NoDup (l ++ [x]).
Proof.
  induction l as [|y l IH]; intros Hnd Hx.
  - constructor; [intros [] | constructor].
  - inversion Hnd as [|? ? Hy Hl]; subst. simpl. constructor.
    + intros [Hin | [-> | []]]%in_app_or; [exact (Hy Hin)|].
      apply Hx. left. reflexivity.
    + apply IH; [exact Hl|]. intros Hin. apply Hx. right. exact Hin.
Qed.

Lemma next_rowid_above t r : In r t -> id r < next_rowid t.
Proof.
  unfold next_rowid. induction t as [|r' t IH]; intros Hin; [destruct Hin|].
  destruct Hin as [<-|Hin]; simpl.
  - lia.
  - specialize (IH Hin). lia.
Qed.

Lemma insert_or_ignore_unique t m :
  List.NoDup (map (fun r => message_id (data r)) t) ->
  List.NoDup (map id t) ->
  List.NoDup (map (fun r => message_id (data r)) (insert_or_ignore t m))
  /\ List.NoDup (map id (insert_or_ignore t m)).
Proof.
  intros Hmid Hid. unfold insert_or_ignore.
  destruct (has_message t (message_id m)) eqn:Hm; [split; assumption|].
  rewrite !map_app. simpl. split; apply NoDup_snoc; try assumption.
  - intros Hin%has_message_In. congruence.
  - intros (r & Heq & Hr)%in_map_iff.
    pose proof (next_rowid_above t r Hr). lia.
Qed.

Lemma executemany_insert_unique msgs : forall t,
  List.NoDup (map (fun r => message_id (data r)) t) ->
  List.NoDup (map id t) ->
  List.NoDup (map (fun r => message_id (data r)) (executemany_insert t msgs))
  /\ List.NoDup (map id (executemany_insert t msgs)).
Proof.
  induction msgs as [|m msgs IH]; intros t Hmid Hid; [split; assumption|].
  unfold executemany_insert in *. simpl.
  destruct (insert_or_ignore_unique t m Hmid Hid) as [H1 H2].
  apply IH; assumption.
Qed.

Lemma update_keeps_ids t mid p :
  map (fun r => message_id (data r)) (execute_update_media_path t mid p)
  = map (fun r => message_id (data r)) t
  /\ map id (execute_update_media_path t mid p) = map id t.
Proof.
  unfold execute_update_media_path. rewrite !map_map. split; apply map_ext; intros r.
  - apply message_id_update_row.
  - unfold update_media_path_row. destruct (message_id (data r) =? mid); reflexivity.
Qed.

(** X2. The constraints of the [messages] schema are invariants of the
    store: when no two rows share a [message_id] (the [UNIQUE] column) and
    no two rows share an [id] (the primary key), the same holds after
    [batch_insert_messages] of any batch, even one that repeats an id, and
    after [update_media_path]. *)
Theorem store_constraints_kept (w : World) (channel : str) :
  List.NoDup (stored_ids w channel) ->
  List.NoDup (map id (table w channel)) ->
  (forall messages,
     List.NoDup (stored_ids (batch_insert_messages w channel messages) channel)
     /\ List.NoDup (map id (table (batch_insert_messages w channel messages)
                                 channel)))
  /\ (forall mid p,
        List.NoDup (stored_ids (update_media_path w channel mid p) channel)
        /\ List.NoDup (map id (table (update_media_path w channel mid p) channel))).
Proof.
  unfold stored_ids. intros Hmid Hid. split.
  - intros messages. rewrite table_batch_insert.
    apply executemany_insert_unique; assumption.
  - intros mid p. unfold update_media_path. rewrite table_set_table.
    destruct (update_keeps_ids (table w channel) mid p) as [-> ->].
    split; assumption.
Qed.

Lemma update_row_commute mid1 p1 mid2 p2 r :
  mid1 <> mid2 ->
  update_media_path_row mid2 p2 (update_media_path_row mid1 p1 r)
  = update_media_path_row mid1 p1 (update_media_path_row mid2 p2 r).
Proof.
  intros Hne. unfold update_media_path_row.
  destruct (Z.eqb_spec (message_id (data r)) mid1) as [H1|H1];
    destruct (Z.eqb_spec (message_id (data r)) mid2) as [H2|H2];
    simpl; rewrite ?(proj2 (Z.eqb_eq _ _) H1), ?(proj2 (Z.eqb_eq _ _) H2),
             ?(proj2 (Z.eqb_neq _ _) H1), ?(proj2 (Z.eqb_neq _ _) H2);
    try reflexivity.
  congruence.
Qed.

Lemma update_row_again mid p q r :
  update_media_path_row mid q (update_media_path_row mid p r)
  = update_media_path_row mid q r.
Proof.
  unfold update_media_path_row.
  destruct (message_id (data r) =? mid) eqn:H; simpl; rewrite H; reflexivity.
Qed.

Lemma update_absent t mid p :
  has_message t mid = false -> execute_update_media_path t mid p = t.
Proof.
  unfold has_message, execute_update_media_path.
  induction t as [|r t IH]; [reflexivity|].
  simpl. intros [Hr Ht]%orb_false_iff.
  rewrite (IH Ht). unfold update_media_path_row. rewrite Hr. reflexivity.
Qed.

(** X3. [update_media_path] is a point update. For an id that is not stored
    it changes no row, and it is not an error. It never changes the number
    of rows; a row with another id is left as it is, and a row with the id
    keeps everything but its media reference, which becomes the path. Updating
    the same id again replaces the reference (the last write wins), and
    updates of different ids commute, so the order in which finished
    downloads are reconciled does not matter. *)
Theorem update_media_path_point_update (w : World) (channel : str) (mid : Z)
    (p : str) :
  let t := table w channel in
  let t' := table (update_media_path w channel mid p) channel in
  length t' = length t
  /\ (has_message t mid = false -> t' = t)
  /\ (forall k r, t !! k = Some r ->
        t' !! k = Some (if message_id (data r) =? mid
                        then {| id := id r; data := set_media_path (Some p) (data r) |}
                        else r))
  /\ (forall q, update_media_path (update_media_path w channel mid p) channel mid q
                = update_media_path w channel mid q)
  /\ (forall mid' q, mid <> mid' ->
        update_media_path (update_media_path w channel mid p) channel mid' q
        = update_media_path (update_media_path w channel mid' q) channel mid p).
Proof.
  intros t t'. subst t t'. unfold update_media_path.
  rewrite !table_set_table. split; [|split; [|split; [|split]]].
  - unfold execute_update_media_path. apply length_map.
  - apply update_absent.
  - intros k r Hk. unfold execute_update_media_path.
    rewrite list_lookup_fmap, Hk. reflexivity.
  - intros q. rewrite ?table_set_table, set_table_twice. f_equal.
    unfold execute_update_media_path. rewrite map_map.
    apply map_ext. intros r. apply update_row_again.
  - intros mid' q Hne. rewrite ?table_set_table, !set_table_twice. f_equal.
    unfold execute_update_media_path. rewrite !map_map.
    apply map_ext. intros r. apply update_row_commute. exact Hne.
Qed.

Lemma update_media_path_point_update_witness :
  table (update_media_path (batch_insert_messages fresh_scraper channel_c
                              [sample_record 1]) channel_c 2 (lit "x")) channel_c
  = table (batch_insert_messages fresh_scraper channel_c [sample_record 1])
          channel_c.
Proof.
  apply (proj1 (proj2 (update_media_path_point_update
                         (batch_insert_messages fresh_scraper channel_c
                            [sample_record 1]) channel_c 2 (lit "x")))).
  reflexivity.
Defined.

Lemma store_constraints_kept_witness :
  List.NoDup (stored_ids (batch_insert_messages
                            (batch_insert_messages fresh_scraper channel_c
                               [sample_record 1])
                            channel_c [sample_record 2; sample_record 1;
                                       sample_record 2]) channel_c).
Proof.
  refine (proj1 (proj1 (store_constraints_kept
                          (batch_insert_messages fresh_scraper channel_c
                             [sample_record 1])
                          channel_c _ _) _)).
  - vm_compute. constructor; [intros [] | constructor].
  - vm_compute. constructor; [intros [] | constructor].
Defined.

(** ** The media download manager: what a returned path means *)

(** X4. A path returned by [download_media] always names a file. It is
    returned only with media scraping enabled and for a photo or a document,
    and it is either the first file already present for the message id, in
    which case nothing was fetched, or the non-empty path delivered, with its
    file existing, by one of the three attempts after every earlier attempt
    raised; the file is then present for the id. Calling [download_media]
    again for the same message fetches nothing and returns the same path. *)
Theorem download_media_returns_file (enabled : bool) (files : MediaFiles)
    (channel : str) (m : Message) (p : str) (ev : list event)
    (files' : MediaFiles) :
  download_media enabled files channel m = (Some p, ev, files') ->
  enabled = true
  /\ (msg_media m = Some MessageMediaPhoto \/ msg_media m = Some MessageMediaDocument)
  /\ ((head (glob files channel (msg_id m)) = Some p /\ ev = [] /\ files' = files)
      \/ (glob files channel (msg_id m) = [] /\ truthy p = true
          /\ glob files' channel (msg_id m) = [p]
          /\ exists k, (k < 3)%nat
                /\ fetch m k = Ok (Some p, true)
                /\ (forall j, (j < k)%nat -> exists e, fetch m j = Raise e)
                /\ fetch_count ev = S k))
  /\ download_media enabled files' channel m = (Some p, [], files').
Proof.
  unfold download_media. intros Hrun.
  destruct (msg_media m) as [media|] eqn:Hmedia; [|discriminate].
  destruct enabled; [|discriminate]. cbn [negb] in *.
  assert (Hkind : media = MessageMediaPhoto \/ media = MessageMediaDocument).
  { destruct media; try discriminate; auto. }
  assert (Hgo : forall (fs : MediaFiles),
            match media with
            | MessageMediaPhoto | MessageMediaDocument =>
                match glob fs channel (msg_id m) with
                | existing :: _ => (Some existing, [], fs)
                | [] =>
                    let (r, ev) := download_attempts m (seq 0 3) in
                    match r with
                    | Some p => (Some p, ev, <[(channel, msg_id m) := [p]]> fs)
                    | None => (None, ev, fs)
                    end
                end
            | _ => (None, [], fs)
            end
            = match glob fs channel (msg_id m) with
              | existing :: _ => (Some existing, [], fs)
              | [] =>
                  let (r, ev) := download_attempts m (seq 0 3) in
                  match r with
                  | Some p => (Some p, ev, <[(channel, msg_id m) := [p]]> fs)
                  | None => (None, ev, fs)
                  end
              end).
  { intros fs. destruct Hkind as [-> | ->]; reflexivity. }
  rewrite Hgo in Hrun. rewrite Hgo. clear Hgo.
  split; [reflexivity|].
  split; [destruct Hkind as [-> | ->]; auto|].
  destruct (glob files channel (msg_id m)) as [|q qs] eqn:Hglob.
  - rewrite download_attempts_from_0 in Hrun.
    assert (Hglob' : glob (<[(channel, msg_id m) := [p]]> files) channel (msg_id m)
                     = [p]).
    { unfold glob. rewrite lookup_insert_eq. reflexivity. }
    assert (Hret : forall (o : option str) (x : bool) (l : list event),
              ((if truthy_opt o && x then o else None), l) =
              (let (r, ev0) := ((if truthy_opt o && x then o else None), l) in (r, ev0))).
    { reflexivity. }
    destruct (fetch m 0%nat) as [[o0 x0]|e0] eqn:H0.
    { destruct o0 as [p0|]; simpl in Hrun; [|discriminate].
      destruct (truthy p0) eqn:Hp0; simpl in Hrun; [|discriminate].
      destruct x0; simpl in Hrun; [|discriminate].
      injection Hrun as <- <- <-. rewrite Hglob'.
      split; [|reflexivity]. right. repeat split; try assumption.
      exists 0%nat. repeat split; [lia | exact H0 | intros j Hj; lia]. }
    destruct (fetch m 1%nat) as [[o1 x1]|e1] eqn:H1.
    { destruct o1 as [p1|]; simpl in Hrun; [|discriminate].
      destruct (truthy p1) eqn:Hp1; simpl in Hrun; [|discriminate].
      destruct x1; simpl in Hrun; [|discriminate].
      injection Hrun as <- <- <-. rewrite Hglob'.
      split; [|reflexivity]. right. repeat split; try assumption.
      exists 1%nat. repeat split; [lia | exact H1 |].
      intros j Hj. assert (j = 0%nat) as -> by lia. eauto. }
    destruct (fetch m 2%nat) as [[o2 x2]|e2] eqn:H2; [|discriminate].
    destruct o2 as [p2|]; simpl in Hrun; [|discriminate].
    destruct (truthy p2) eqn:Hp2; simpl in Hrun; [|discriminate].
    destruct x2; simpl in Hrun; [|discriminate].
    injection Hrun as <- <- <-. rewrite Hglob'.
    split; [|reflexivity]. right. repeat split; try assumption.
    exists 2%nat. repeat split; [lia | exact H2 |].
    intros j Hj. assert (j = 0%nat \/ j = 1%nat) as [-> | ->] by lia; eauto.
  - injection Hrun as <- <- <-. rewrite Hglob.
    split; [|reflexivity]. left. auto.
Qed.

Lemma download_media_returns_file_witness :
  download_media true
    (<[(lit "c", 9) := [lit "channels/c/media/9-photo.jpg"]]> ∅) (lit "c")
    (sample_message 9 (Some MessageMediaPhoto) third_time_lucky)
  = (Some (lit "channels/c/media/9-photo.jpg"), [],
     <[(lit "c", 9) := [lit "channels/c/media/9-photo.jpg"]]> ∅).
Proof.
  assert (Hfirst : download_media true ∅ (lit "c")
                     (sample_message 9 (Some MessageMediaPhoto) third_time_lucky)
                   = (Some (lit "channels/c/media/9-photo.jpg"),
                      [Fetch 9 0; Sleep 7; Fetch 9 1; Sleep 2; Fetch 9 2],
                      <[(lit "c", 9) := [lit "channels/c/media/9-photo.jpg"]]> ∅))
    by (vm_compute; reflexivity).
  exact (proj2 (proj2 (proj2 (download_media_returns_file _ _ _ _ _ _ _ Hfirst)))).
Defined.

(** ** Batches of ten *)

(** X5. The slicing loop [for i in range(0, len(tasks), 10): batch =
    tasks[i : i + 10]], used by the download phase and by both repair
    passes, partitions the tasks: the batches, in order, make up the task
    list again, so every task is in exactly one batch; each batch has
    between one and ten tasks; and there are [ceil(len / 10)] batches, none
    for an empty list. *)
Theorem download_batches_partition {A : Type} (tasks : list A) :
  concat (download_batches tasks) = tasks
  /\ Forall (fun batch => (1 <= length batch <= 10)%nat) (download_batches tasks)
  /\ length (download_batches tasks) = ((length tasks + 9) / 10)%nat.
Proof.
  split; [apply download_batches_concat|].
  unfold download_batches, range_step, slice.
  replace (length tasks + 10 - 1)%nat with (length tasks + 9)%nat by lia.
  pose proof (Nat.div_mod_eq (length tasks + 9) 10) as Hdm.
  pose proof (Nat.mod_upper_bound (length tasks + 9) 10 ltac:(lia)) as Hub.
  split.
  - apply List.Forall_forall. intros batch Hin.
    apply in_map_iff in Hin as (i & <- & Hi).
    apply in_map_iff in Hi as (k & <- & Hk).
    apply in_seq in Hk. rewrite length_take, length_drop. lia.
  - rewrite !length_map, length_seq. reflexivity.
Qed.

(** ** The admission gate: progress and termination *)

Lemma list_sum_alter (f : Message * phase -> nat) g l : forall i x,
  l !! i = Some x ->
  (list_sum (map f (alter g i l)) + f x = list_sum (map f l) + f (g x))%nat.
Proof.
  induction l as [|y l IH]; intros i x Hi; [discriminate|].
  destruct i as [|i]; simpl in Hi.
  - injection Hi as ->.
    change (list_sum (map f (g x :: l)) + f x
            = list_sum (map f (x :: l)) + f (g x))%nat.
    simpl. lia.
  - change (list_sum (map f (y :: alter g i l)) + f x
            = list_sum (map f (y :: l)) + f (g x))%nat.
    simpl. specialize (IH _ _ Hi). lia.
Qed.

Lemma steps_of_finished l :
  forallb (fun mp => match snd mp with Finished => true | _ => false end) l = true ->
  list_sum (map steps_of_phase l) = 0%nat.
Proof.
  induction l as [|[m ph] l IH]; [reflexivity|].
  simpl. intros [Hph Hl]%andb_true_iff. rewrite (IH Hl).
  destruct ph; try discriminate. reflexivity.
Qed.

Lemma steps_of_waiting (batch : list Message) :
  list_sum (map steps_of_phase (map (fun m => (m, Waiting)) batch))
  = (2 * length batch)%nat.
Proof.
  induction batch as [|m batch IH]; [reflexivity|].
  cbn [map length].
  change (list_sum (?x :: ?l)) with (x + list_sum l)%nat.
  rewrite IH. unfold steps_of_phase. simpl. lia.
Qed.

Lemma pool_step_counts p a p' :
  pool_step p a = Some p' -> steps_left p = S (steps_left p').
Proof.
  unfold steps_left. intros Hstep. destruct a as [i|i|]; simpl in Hstep.
  - destruct (current p !! i) as [[m []]|] eqn:Hi; try discriminate.
    destruct (0 <? permits p); [|discriminate].
    injection Hstep as <-. cbn [current later set_phase].
    pose proof (list_sum_alter steps_of_phase (fun mp => (fst mp, Fetching))
                  _ _ _ Hi) as H.
    unfold steps_of_phase at 2 4 in H. simpl in H.
    set (A := list_sum (map steps_of_phase (alter _ i (current p)))) in *.
    set (B := list_sum (map steps_of_phase (current p))) in *.
    set (L := list_sum (map _ (later p))).
    clearbody A B L. lia.
  - destruct (current p !! i) as [[m []]|] eqn:Hi; try discriminate.
    injection Hstep as <-. cbn [current later set_phase].
    pose proof (list_sum_alter steps_of_phase (fun mp => (fst mp, Finished))
                  _ _ _ Hi) as H.
    unfold steps_of_phase at 2 4 in H. simpl in H.
    set (A := list_sum (map steps_of_phase (alter _ i (current p)))) in *.
    set (B := list_sum (map steps_of_phase (current p))) in *.
    set (L := list_sum (map _ (later p))).
    clearbody A B L. lia.
  - destruct (later p) as [|batch rest]; [discriminate|].
    destruct (all_finished p) eqn:Hfin; [|discriminate].
    injection Hstep as <-. cbn [current later map list_sum].
    rewrite steps_of_waiting, (steps_of_finished _ Hfin).
    change (list_sum (?x :: ?l)) with (x + list_sum l)%nat.
    set (L := list_sum (map _ rest)). clearbody L. lia.
Qed.

Lemma run_schedule_counts schedule : forall p p',
  run_schedule p schedule = Some p' ->
  (length schedule + steps_left p' = steps_left p)%nat.
Proof.
  induction schedule as [|a schedule IH]; intros p p' Hrun; simpl in Hrun.
  - injection Hrun as <-. reflexivity.
  - destruct (pool_step p a) as [p1|] eqn:Hstep; [|discriminate].
    rewrite (pool_step_counts _ _ _ Hstep). simpl. rewrite <- (IH _ _ Hrun). lia.
Qed.

Lemma steps_left_init tasks :
  steps_left (pool_init tasks)
  = (2 * length tasks + (length (download_batches tasks) - 1))%nat.
Proof.
  unfold steps_left, pool_init.
  pose proof (download_batches_concat tasks) as Hcat.
  destruct (download_batches tasks) as [|batch rest].
  - simpl in *. subst tasks. reflexivity.
  - cbn [current later]. rewrite steps_of_waiting.
    rewrite <- Hcat. simpl concat. rewrite length_app.
    assert (Hrest : list_sum (map (fun b : list Message => S (2 * length b)) rest)
                    = (2 * length (concat rest) + length rest)%nat).
    { clear. induction rest as [|b rest IH]; [reflexivity|].
      simpl concat. rewrite length_app. cbn [map].
      change (list_sum (?x :: ?l)) with (x + list_sum l)%nat.
      rewrite IH. simpl length. lia. }
    rewrite Hrest. simpl length. lia.
Qed.

Lemma phase_cases (l : list (Message * phase)) :
  (exists i m, l !! i = Some (m, Fetching))
  \/ (fetching_count l = 0 /\ exists i m, l !! i = Some (m, Waiting))
  \/ forallb (fun mp => match snd mp with Finished => true | _ => false end) l
     = true.
Proof.
  induction l as [|[m ph] l IH]; [right; right; reflexivity|].
  destruct ph.
  - destruct IH as [(i & m' & Hi) | [(Hc & _) | Hfin]].
    + left. exists (S i), m'. exact Hi.
    + right. left. split; [rewrite fetching_count_cons, Hc; reflexivity|].
      exists 0%nat, m. reflexivity.
    + right. left. split.
      * rewrite fetching_count_cons, (fetching_count_finished _ Hfin). reflexivity.
      * exists 0%nat, m. reflexivity.
  - left. exists 0%nat, m. reflexivity.
  - destruct IH as [(i & m' & Hi) | [(Hc & i & m' & Hi) | Hfin]].
    + left. exists (S i), m'. exact Hi.
    + right. left. split; [rewrite fetching_count_cons, Hc; reflexivity|].
      exists (S i), m'. exact Hi.
    + right. right. simpl. exact Hfin.
Qed.

(** X6. The download phase cannot get stuck and cannot run forever. In
    every state it can reach, either a step is possible (a task in flight
    can release, or a waiting task can be admitted, or the next batch can be
    started), or every task has finished, no batch is left and the
    semaphore is back at its full value of five. Every schedule of a phase
    with [T] tasks in [B] batches has at most [2T + B - 1] steps: one
    admission and one release per task, and one start per further batch. *)
Theorem download_phase_terminates (tasks : list Message)
    (schedule : list action) (p : Pool) :
  run_schedule (pool_init tasks) schedule = Some p ->
  (length schedule + steps_left p
   = 2 * length tasks + (length (download_batches tasks) - 1))%nat
  /\ ((exists a p', pool_step p a = Some p')
      \/ (all_finished p = true /\ later p = []
          /\ permits p = max_concurrent_downloads /\ steps_left p = 0%nat)).
Proof.
  intros Hrun. split.
  { rewrite <- steps_left_init. apply run_schedule_counts. exact Hrun. }
  destruct (gate_invariant_run _ _ _ (gate_invariant_init tasks) Hrun)
    as [Hpos Hsum].
  rewrite in_flight_fetching_count in Hsum.
  destruct (phase_cases (current p)) as [(i & m & Hi) | [(Hc & i & m & Hi) | Hfin]].
  - left. exists (Release i). simpl. rewrite Hi. eauto.
  - left. exists (Acquire i). simpl. rewrite Hi.
    destruct (Z.ltb_spec 0 (permits p)) as [_|Hle]; [eauto|].
    unfold max_concurrent_downloads in Hsum. lia.
  - destruct (later p) as [|batch rest] eqn:Hlater.
    + right. split; [exact Hfin|]. split; [reflexivity|]. split.
      * rewrite (fetching_count_finished _ Hfin) in Hsum. lia.
      * unfold steps_left. rewrite Hlater, (steps_of_finished _ Hfin). reflexivity.
    + left. exists NextBatch. simpl. rewrite Hlater.
      unfold all_finished. rewrite Hfin. eauto.
Qed.

Lemma download_phase_terminates_witness :
  exists p, run_schedule (pool_init seven_tasks) five_admitted = Some p
            /\ (length five_admitted + steps_left p = 14)%nat.
Proof.
  eexists. split; [reflexivity|].
  apply (download_phase_terminates seven_tasks five_admitted). reflexivity.
Defined.

(** ** What a run may write *)

Lemma store_writes_trans t1 t2 t3 :
  store_writes t1 t2 -> store_writes t2 t3 -> store_writes t1 t3.
Proof.
  intros H12 H23. induction H23.
  - exact H12.
  - apply writes_insert; auto.
  - apply writes_update; auto.
Qed.

Lemma store_writes_executemany msgs : forall t,
  Forall (fun m => media_path m = None) msgs ->
  store_writes t (executemany_insert t msgs).
Proof.
  induction msgs as [|m msgs IH] using rev_ind; intros t Hall.
  - apply writes_none.
  - apply Forall_app in Hall as [Hmsgs Hm].
    apply List.Forall_cons_iff in Hm as [Hm _].
    unfold executemany_insert in *. rewrite fold_left_app. simpl.
    apply writes_insert; [apply IH; exact Hmsgs | exact Hm].
Qed.

Lemma run_effect_refl channel w : run_effect channel w w.
Proof. unfold run_effect. repeat split; auto. apply writes_none. Qed.

Lemma run_effect_trans channel w1 w2 w3 :
  run_effect channel w1 w2 -> run_effect channel w2 w3 ->
  run_effect channel w1 w3.
Proof.
  unfold run_effect.
  intros (A1 & B1 & C1 & D1 & E1 & F1) (A2 & B2 & C2 & D2 & E2 & F2).
  split; [congruence|]. split; [congruence|]. split; [congruence|].
  split; [intros c Hc; rewrite D2, D1 by exact Hc; reflexivity|].
  split; [intros c Hc; rewrite E2, E1 by exact Hc; reflexivity|].
  eapply store_writes_trans; eassumption.
Qed.

Lemma run_effect_set_table channel w t :
  store_writes (table w channel) t -> run_effect channel w (set_table w channel t).
Proof.
  intros Hw. unfold run_effect. rewrite table_set_table.
  repeat split; try exact Hw.
  intros c Hc. simpl. apply lookup_insert_ne. congruence.
Qed.

Lemma run_effect_batch_insert channel w msgs :
  Forall (fun m => media_path m = None) msgs ->
  run_effect channel w (batch_insert_messages w channel msgs).
Proof.
  intros Hall. destruct msgs as [|m msgs]; [apply run_effect_refl|].
  apply run_effect_set_table. apply store_writes_executemany. exact Hall.
Qed.

Lemma run_effect_update channel w mid p :
  truthy p = true -> run_effect channel w (update_media_path w channel mid p).
Proof.
  intros Hp. apply run_effect_set_table.
  apply writes_update; [apply writes_none | exact Hp].
Qed.

Lemma run_effect_checkpoint channel w last :
  run_effect channel w (save_state (set_cursor w channel last)).
Proof.
  unfold run_effect. repeat split; try apply writes_none.
  intros c Hc. simpl. apply lookup_insert_ne. congruence.
Qed.

Lemma run_effect_media_files channel w f :
  run_effect channel w (set_media_files w f).
Proof. unfold run_effect. repeat split; auto. apply writes_none. Qed.

Lemma run_effect_await_task channel w m :
  run_effect channel w (fst (await_task channel w m)).
Proof.
  unfold await_task.
  destruct (download_media _ _ _ _) as [[[p|] ev] files]; simpl.
  - destruct (truthy p) eqn:Hp; simpl.
    + eapply run_effect_trans; [apply run_effect_media_files|].
      apply run_effect_update. exact Hp.
    + apply run_effect_media_files.
  - apply run_effect_media_files.
Qed.

Lemma run_effect_downloads channel tasks : forall w paths,
  run_effect channel w (fst (fold_left (await_download channel) tasks (w, paths))).
Proof.
  induction tasks as [|m tasks IH]; intros w paths.
  - apply run_effect_refl.
  - simpl. pose proof (run_effect_await_task channel w m) as Hstep.
    destruct (await_task channel w m) as [w1 [p|]]; simpl in Hstep;
      (eapply run_effect_trans; [exact Hstep | apply IH]).
Qed.

Lemma run_effect_repairs channel tasks : forall w,
  run_effect channel w
    (fold_left (fun w m => fst (await_task channel w m)) tasks w).
Proof.
  induction tasks as [|m tasks IH]; intros w.
  - apply run_effect_refl.
  - simpl. eapply run_effect_trans; [apply run_effect_await_task | apply IH].
Qed.

Lemma make_message_data_path ai lang force m d :
  make_message_data ai lang force m = Ok d -> media_path d = None.
Proof.
  unfold make_message_data.
  destruct (get_sender m) as [sender|]; cbn [bind]; [|discriminate].
  match goal with |- context [bind ?r _] => destruct r as [text|] end;
    cbn [bind]; [|discriminate].
  intros [= <-]. reflexivity.
Qed.

Lemma run_effect_loop channel lang (force : bool) offset_id ys : forall w,
  let wl := fold_left (if force then force_body channel lang
                       else incremental_body channel lang) ys
                      (w, loop_init offset_id) in
  run_effect channel w (fst wl)
  /\ Forall (fun m => media_path m = None) (message_batch (snd wl)).
Proof.
  intros w. induction ys as [|m ys IH] using rev_ind.
  - simpl. split; [apply run_effect_refl | constructor].
  - cbv zeta in *. rewrite fold_left_app. simpl fold_left.
    destruct (fold_left _ ys (w, loop_init offset_id)) as [w1 l1].
    cbn [fst snd] in IH. destruct IH as [Hrun Hbatch].
    assert (Hstep : forall d,
              media_path d = None ->
              let flushed := if batch_size <=? Z.of_nat (length (message_batch l1 ++ [d]))
                             then (batch_insert_messages w1 channel
                                     (message_batch l1 ++ [d]), [])
                             else (w1, message_batch l1 ++ [d]) in
              run_effect channel w (fst flushed)
              /\ Forall (fun m => media_path m = None) (snd flushed)).
    { intros d Hd.
      assert (Hb : Forall (fun m => media_path m = None) (message_batch l1 ++ [d])).
      { apply Forall_app. split; [exact Hbatch|]. constructor; [exact Hd|constructor]. }
      destruct (batch_size <=? _); simpl.
      - split; [|constructor].
        eapply run_effect_trans; [exact Hrun|].
        apply run_effect_batch_insert. exact Hb.
      - split; assumption. }
    destruct force.
    + unfold force_body.
      destruct (make_message_data (ai_client w1) lang true m) as [d|e] eqn:Hd;
        [|split; assumption].
      specialize (Hstep d (make_message_data_path _ _ _ _ _ Hd)). cbv zeta in Hstep.
      destruct (if batch_size <=? _ then _ else _) as [w2 b2].
      exact Hstep.
    + unfold incremental_body.
      destruct (make_message_data (ai_client w1) lang false m) as [d|e] eqn:Hd;
        [|split; assumption].
      specialize (Hstep d (make_message_data_path _ _ _ _ _ Hd)). cbv zeta in Hstep.
      destruct (if batch_size <=? _ then _ else _) as [w2 b2].
      cbn [fst snd] in *. destruct Hstep as [Hrun2 Hb2].
      destruct (_ mod _ =? 0); cbn [fst snd]; split; try assumption.
      eapply run_effect_trans; [exact Hrun2 | apply run_effect_checkpoint].
Qed.

Lemma run_effect_scrape_channel w t channel offset_id force lang :
  run_effect channel w (fst (scrape_channel w t channel offset_id force lang)).
Proof.
  unfold scrape_channel.
  destruct (get_entity t) as [[]|e]; [|apply run_effect_refl].
  destruct (force && limit_set (state w)).
  - unfold iter_messages_newest, paginate, force_loop.
    destruct (pagination_fault t) as [k|].
    + apply (run_effect_loop channel lang true offset_id).
    + pose proof (run_effect_loop channel lang true offset_id
                    (take (Z.to_nat (default 0 (message_limit (state w))))
                          (rev (history t))) w) as [Hrun Hb].
      cbv zeta in Hrun, Hb.
      destruct (fold_left _ _ (w, loop_init offset_id)) as [w1 l1].
      rewrite flush_and_download_eq. cbn [fst snd] in *.
      pose proof (run_effect_downloads channel (media_tasks l1)
                    (batch_insert_messages w1 channel (message_batch l1)) ∅) as Hd.
      destruct (fold_left (await_download channel) _ _) as [w3 paths].
      cbn [fst] in *.
      eapply run_effect_trans; [exact Hrun|].
      eapply run_effect_trans; [apply run_effect_batch_insert; exact Hb | exact Hd].
  - destruct (total_messages t =? 0); [apply run_effect_refl|].
    unfold iter_messages_after, paginate, incremental_loop.
    destruct (pagination_fault t) as [k|].
    + apply (run_effect_loop channel lang false offset_id).
    + pose proof (run_effect_loop channel lang false offset_id
                    (List.filter (fun m => offset_id <? msg_id m) (history t)) w)
        as [Hrun Hb].
      cbv zeta in Hrun, Hb.
      destruct (fold_left _ _ (w, loop_init offset_id)) as [w1 l1].
      rewrite flush_and_download_eq. cbn [fst snd] in *.
      pose proof (run_effect_downloads channel (media_tasks l1)
                    (batch_insert_messages w1 channel (message_batch l1)) ∅) as Hd.
      destruct (fold_left (await_download channel) _ _) as [w3 paths].
      cbn [fst] in *.
      eapply run_effect_trans; [exact Hrun|].
      eapply run_effect_trans; [apply run_effect_batch_insert; exact Hb|].
      eapply run_effect_trans; [exact Hd | apply run_effect_checkpoint].
Qed.

Lemma insert_or_ignore_ids t m :
  map (fun r => message_id (data r)) t
  `prefix_of` map (fun r => message_id (data r)) (insert_or_ignore t m).
Proof.
  destruct (insert_or_ignore_prefix t m) as [k ->].
  rewrite map_app. eexists. reflexivity.
Qed.

Lemma store_writes_ids t t' :
  store_writes t t' ->
  map (fun r => message_id (data r)) t
  `prefix_of` map (fun r => message_id (data r)) t'.
Proof.
  induction 1 as [t | t t' m _ IH _ | t t' mid p _ IH _].
  - reflexivity.
  - etransitivity; [exact IH | apply insert_or_ignore_ids].
  - destruct (update_keeps_ids t' mid p) as [-> _]. exact IH.
Qed.

Lemma same_but_media_path_update mid p r :
  same_but_media_path r (update_media_path_row mid p r).
Proof.
  unfold same_but_media_path, update_media_path_row.
  destruct (message_id (data r) =? mid); split; reflexivity.
Qed.

Lemma store_writes_rows t t' :
  store_writes t t' ->
  forall k r, t !! k = Some r ->
    exists r', t' !! k = Some r' /\ same_but_media_path r r'.
Proof.
  induction 1 as [t | t t' m _ IH _ | t t' mid p _ IH _]; intros k r Hk.
  - exists r. split; [exact Hk | split; reflexivity].
  - destruct (IH k r Hk) as (r' & Hk' & Hsame). exists r'. split; [|exact Hsame].
    destruct (insert_or_ignore_prefix t' m) as [tail ->].
    apply lookup_app_l_Some. exact Hk'.
  - destruct (IH k r Hk) as (r' & Hk' & Hid & Hdata).
    exists (update_media_path_row mid p r'). split.
    + unfold execute_update_media_path. rewrite list_lookup_fmap, Hk'. reflexivity.
    + destruct (same_but_media_path_update mid p r') as [Hid' Hdata'].
      split; congruence.
Qed.

Lemma store_writes_unique t t' :
  store_writes t t' ->
  List.NoDup (map (fun r => message_id (data r)) t) -> List.NoDup (map id t) ->
  List.NoDup (map (fun r => message_id (data r)) t') /\ List.NoDup (map id t').
Proof.
  induction 1 as [t | t t' m _ IH _ | t t' mid p _ IH _]; intros Hmid Hid.
  - split; assumption.
  - destruct (IH Hmid Hid). apply insert_or_ignore_unique; assumption.
  - destruct (update_keeps_ids t' mid p) as [-> ->]. apply IH; assumption.
Qed.

Lemma store_writes_paths t t' :
  store_writes t t' -> paths_named t -> paths_named t'.
Proof.
  unfold paths_named.
  induction 1 as [t | t t' m _ IH Hm | t t' mid p _ IH Hp]; intros Hnamed.
  - exact Hnamed.
  - specialize (IH Hnamed). unfold insert_or_ignore.
    destruct (has_message t' (message_id m)); [exact IH|].
    apply Forall_app. split; [exact IH|].
    constructor; [|constructor]. simpl. rewrite Hm. discriminate.
  - specialize (IH Hnamed). unfold execute_update_media_path.
    apply List.Forall_forall. intros r (r0 & <- & Hr0)%in_map_iff.
    unfold update_media_path_row.
    destruct (message_id (data r0) =? mid).
    + simpl. intros [= ->]. discriminate Hp.
    + exact (proj1 (List.Forall_forall _ _) IH r0 Hr0).
Qed.

(** X7. Whatever its mode and whether or not it fails, a run of
    [scrape_channel] never removes, reorders or rewrites a stored record:
    the ids stored for the channel before the run are a prefix of those
    stored after it, and every row keeps its position, its [id] and all its
    columns except, at most, the media reference. *)
Theorem scrape_channel_only_appends (w : World) (t : Transport) (channel : str)
    (offset_id : Z) (force : bool) (lang : option str) :
  let w' := fst (scrape_channel w t channel offset_id force lang) in
  stored_ids w channel `prefix_of` stored_ids w' channel
  /\ forall k r, table w channel !! k = Some r ->
       exists r', table w' channel !! k = Some r' /\ same_but_media_path r r'.
Proof.
  intros w'. subst w'.
  destruct (run_effect_scrape_channel w t channel offset_id force lang)
    as (_ & _ & _ & _ & _ & Hwrites).
  split.
  - unfold stored_ids. apply store_writes_ids. exact Hwrites.
  - apply store_writes_rows. exact Hwrites.
Qed.

(** X8. A run of [scrape_channel] on one channel leaves everything that
    belongs to another channel as it was, its table and its cursor, and it
    changes neither the media setting nor the message limit nor the
    translation client. *)
Theorem scrape_channel_other_channels (w : World) (t : Transport)
    (channel : str) (offset_id : Z) (force : bool) (lang : option str) :
  let w' := fst (scrape_channel w t channel offset_id force lang) in
  (forall c, c <> channel ->
     db w' !! c = db w !! c
     /\ table w' c = table w c
     /\ channels (state w') !! c = channels (state w) !! c)
  /\ scrape_media (state w') = scrape_media (state w)
  /\ message_limit (state w') = message_limit (state w)
  /\ ai_client w' = ai_client w.
Proof.
  intros w'. subst w'.
  destruct (run_effect_scrape_channel w t channel offset_id force lang)
    as (Hai & Hsm & Hlimit & Hcur & Hdb & _).
  repeat split; try assumption.
  - apply Hdb. assumption.
  - unfold table. rewrite Hdb by assumption. reflexivity.
  - apply Hcur. assumption.
Qed.

Lemma scrape_channel_other_channels_witness :
  channels (state (fst (scrape_channel
                          (set_cursor fresh_scraper (lit "d") 7)
                          sixty_messages channel_c 0 false None)))
    !! lit "d"
  = Some 7.
Proof.
  assert (Hne : lit "d" <> channel_c) by (vm_compute; discriminate).
  rewrite (proj2 (proj2 (proj1 (scrape_channel_other_channels
             (set_cursor fresh_scraper (lit "d") 7)
             sixty_messages channel_c 0 false None) (lit "d") Hne))).
  reflexivity.
Defined.

(** X9. The constraints of the schema and the shape of the media references
    survive any run of [scrape_channel]: if before the run no two rows of
    the channel's table share a [message_id], no two share an [id], and no
    stored media reference is the empty string, the same holds after it. *)
Theorem scrape_channel_keeps_constraints (w : World) (t : Transport)
    (channel : str) (offset_id : Z) (force : bool) (lang : option str) :
  List.NoDup (stored_ids w channel) ->
  List.NoDup (map id (table w channel)) ->
  paths_named (table w channel) ->
  let w' := fst (scrape_channel w t channel offset_id force lang) in
  List.NoDup (stored_ids w' channel)
  /\ List.NoDup (map id (table w' channel))
  /\ paths_named (table w' channel).
Proof.
  intros Hmid Hid Hnamed w'. subst w'.
  destruct (run_effect_scrape_channel w t channel offset_id force lang)
    as (_ & _ & _ & _ & _ & Hwrites).
  destruct (store_writes_unique _ _ Hwrites Hmid Hid) as [H1 H2].
  split; [exact H1|]. split; [exact H2|].
  exact (store_writes_paths _ _ Hwrites Hnamed).
Qed.

Lemma scrape_channel_keeps_constraints_witness :
  List.NoDup (stored_ids (fst (scrape_channel fresh_scraper photo_channel
                                 channel_c 0 false None)) channel_c).
Proof.
  refine (proj1 (scrape_channel_keeps_constraints fresh_scraper photo_channel
                   channel_c 0 false None _ _ _)).
  - vm_compute. constructor.
  - vm_compute. constructor.
  - vm_compute. constructor.
Defined.

(** ** Complete incremental runs *)

Lemma store_writes_has t t' i :
  store_writes t t' -> has_message t i = true -> has_message t' i = true.
Proof.
  induction 1 as [t | t t' m _ IH _ | t t' mid p _ IH _]; intros Hi.
  - exact Hi.
  - rewrite has_message_insert, (IH Hi). reflexivity.
  - rewrite has_message_update. exact (IH Hi).
Qed.

Lemma incremental_loop_kept channel lang w offset_id ys :
  let wl := incremental_loop channel lang w offset_id ys in
  (forall m, In m (processed_records (ai_client w) lang false ys) ->
     has_message (table (fst wl) channel) (msg_id m) = true
     \/ existsb (fun d => message_id d =? msg_id m) (message_batch (snd wl)) = true)
  /\ map message_id (collected_messages (snd wl))
     = map msg_id (processed_records (ai_client w) lang false ys).
Proof.
  induction ys as [|m ys IH] using rev_ind.
  - cbn. split; [intros m [] | reflexivity].
  - cbv zeta in *. unfold incremental_loop in *.
    pose proof (run_effect_loop channel lang false offset_id ys w) as [(Hai & _) _].
    cbv zeta in Hai.
    rewrite fold_left_app, processed_records_snoc. simpl fold_left.
    destruct (fold_left (incremental_body channel lang) ys (w, loop_init offset_id))
      as [w1 l1].
    cbn [fst snd] in *. destruct IH as (Hkept & Hcoll).
    unfold incremental_body, processable. rewrite Hai.
    destruct (make_message_data (ai_client w) lang false m) as [d|e] eqn:Hd.
    2:{ rewrite app_nil_r. simpl. auto. }
    pose proof (make_message_data_id _ _ _ _ _ Hd) as Hid.
    assert (Hin' : forall m', In m' (processed_records (ai_client w) lang false ys ++ [m]) ->
              has_message (table w1 channel) (msg_id m') = true
              \/ existsb (fun d => message_id d =? msg_id m') (message_batch l1 ++ [d])
                 = true).
    { intros m' [Hold|[<-|[]]]%in_app_or.
      - destruct (Hkept m' Hold) as [H|H]; [left; exact H|].
        right. rewrite existsb_app, H. reflexivity.
      - right. rewrite existsb_app. simpl. rewrite Hid, Z.eqb_refl.
        apply orb_true_iff. right. reflexivity. }
    assert (Hcoll' : map message_id (collected_messages l1 ++ [d])
                     = map msg_id (processed_records (ai_client w) lang false ys ++ [m])).
    { rewrite !map_app, Hcoll. simpl. rewrite Hid. reflexivity. }
    destruct (batch_size <=? Z.of_nat (length (message_batch l1 ++ [d])));
      destruct (_ mod _ =? 0); cbn [fst snd]; (split; [|exact Hcoll']).
    + intros m' Hm'. left.
      change (table (save_state (set_cursor ?x channel ?y)) channel)
        with (table x channel).
      rewrite table_batch_insert, has_message_executemany.
      apply orb_true_iff. exact (Hin' m' Hm').
    + intros m' Hm'. left. rewrite table_batch_insert, has_message_executemany.
      apply orb_true_iff. exact (Hin' m' Hm').
    + exact Hin'.
    + exact Hin'.
Qed.

(** X10. An incremental run that meets no failure of the transport, on a
    channel that has messages, stores what it processed and ends with the
    cursor on it: it returns the records it could process, in ascending
    order of traversal; each of them has a row in the channel's table
    afterwards; and the cursor, in memory and in the checkpoint file, is the
    id of the last record processed, or the offset the run started from when
    it processed none. On a channel without any message the run returns
    [None] and changes nothing: no checkpoint is written, and the cursor and
    the checkpoint file stay what they were. *)
Theorem incremental_run_completes (w : World) (t : Transport) (channel : str)
    (offset_id : Z) (force : bool) (lang : option str) :
  force && limit_set (state w) = false ->
  get_entity t = Ok tt ->
  pagination_fault t = None ->
  let ps := processed_records (ai_client w) lang false
              (List.filter (fun m => offset_id <? msg_id m) (history t)) in
  let run := scrape_channel w t channel offset_id force lang in
  (total_messages t <> 0 ->
     (exists returned, snd run = RetList returned
                       /\ map message_id returned = map msg_id ps)
     /\ (forall m, In m ps ->
           has_message (table (fst run) channel) (msg_id m) = true)
     /\ channels (state (fst run)) !! channel
        = Some (default offset_id (msg_id <$> list.last ps))
     /\ saved_cursor (fst run) channel
        = Some (default offset_id (msg_id <$> list.last ps)))
  /\ (total_messages t = 0 -> run = (w, RetNone)).
Proof.
  intros Hmode Hentity Hfault ps run. subst run. unfold scrape_channel.
  rewrite Hentity, Hmode.
  destruct (Z.eqb_spec (total_messages t) 0) as [Hzero|Hsome];
    (split; [intros Htotal | intros Htotal]);
    try contradiction; try reflexivity.
  unfold iter_messages_after, paginate. rewrite Hfault.
  set (ys := List.filter (fun m => offset_id <? msg_id m) (history t)) in *.
  pose proof (incremental_loop_kept channel lang w offset_id ys) as [Hkept Hcoll].
  pose proof (incremental_loop_cursor channel lang w offset_id ys)
    as (_ & _ & Hlast & _).
  cbv zeta in Hkept, Hcoll, Hlast. fold ps in Hkept, Hcoll, Hlast.
  destruct (incremental_loop channel lang w offset_id ys) as [w1 l1].
  rewrite flush_and_download_eq. cbn [fst snd] in *.
  pose proof (run_effect_downloads channel (media_tasks l1)
                (batch_insert_messages w1 channel (message_batch l1)) ∅)
    as (_ & _ & _ & _ & _ & Hwrites).
  destruct (fold_left (await_download channel) _ _) as [w3 paths].
  cbn [fst snd] in *.
  split; [|split; [|split]].
  - eexists. split; [reflexivity|]. rewrite attach_media_paths_ids. exact Hcoll.
  - intros m Hm.
    change (table (save_state (set_cursor w3 channel (last_message_id l1))) channel)
      with (table w3 channel).
    apply (store_writes_has _ _ _ Hwrites).
    rewrite table_batch_insert, has_message_executemany.
    apply orb_true_iff. apply Hkept. exact Hm.
  - simpl. rewrite Hlast. apply lookup_insert_eq.
  - unfold saved_cursor. simpl. rewrite Hlast. apply lookup_insert_eq.
Qed.

Lemma incremental_run_completes_witness :
  saved_cursor (fst (scrape_channel fresh_scraper sixty_messages channel_c 0
                       false None)) channel_c
  = Some 60
  /\ scrape_channel limited_scraper emptied_channel channel_c 100 false None
     = (limited_scraper, RetNone).
Proof.
  split.
  - apply (proj1 (incremental_run_completes fresh_scraper sixty_messages
                    channel_c 0 false None eq_refl eq_refl eq_refl)).
    discriminate.
  - apply (proj2 (incremental_run_completes limited_scraper emptied_channel
                    channel_c 100 false None eq_refl eq_refl eq_refl)).
    reflexivity.
Defined.

Lemma filter_after_last l : forall offset_id m,
  ascending l = true ->
  list.last (List.filter (fun x => offset_id <? msg_id x) l) = Some m ->
  List.filter (fun x => msg_id m <? msg_id x) l = [].
Proof.
  induction l as [|x l IH]; intros offset_id m Hasc Hlast; [reflexivity|].
  simpl in Hasc. apply andb_true_iff in Hasc as [Hx Hasc].
  assert (Habove : forall y, In y l -> msg_id x < msg_id y).
  { intros y Hy. apply Z.ltb_lt. exact (proj1 (forallb_forall _ _) Hx y Hy). }
  assert (Hin : forall ys, list.last ys = Some m ->
            (forall y, In y ys -> In y l /\ offset_id < msg_id y) ->
            In m l /\ offset_id < msg_id m).
  { intros ys Hl Hys. apply Hys. apply list_elem_of_In.
    exact (last_Some_elem_of _ _ Hl). }
  assert (Hfilter : forall y, In y (List.filter (fun x => offset_id <? msg_id x) l) ->
            In y l /\ offset_id < msg_id y).
  { intros y [Hy Hoff%Z.ltb_lt]%List.filter_In. split; assumption. }
  simpl in Hlast. simpl.
  destruct (Z.ltb_spec offset_id (msg_id x)) as [Hpass|Hfail].
  - destruct (List.filter (fun x => offset_id <? msg_id x) l) as [|y ys] eqn:Hf.
    + injection Hlast as <-. rewrite Z.ltb_irrefl.
      assert (l = []) as ->; [|reflexivity].
      destruct l as [|z l]; [reflexivity|]. exfalso.
      assert (Hz : In z (List.filter (fun x => offset_id <? msg_id x) (z :: l))).
      { apply List.filter_In. split; [left; reflexivity|].
        apply Z.ltb_lt. specialize (Habove z (or_introl eq_refl)). lia. }
      rewrite Hf in Hz. destruct Hz.
    + change (list.last (x :: y :: ys)) with (list.last (y :: ys)) in Hlast.
      destruct (Hin _ Hlast Hfilter) as [Hm _].
      rewrite (IH offset_id m Hasc) by (rewrite Hf; exact Hlast).
      destruct (Z.ltb_spec (msg_id m) (msg_id x)) as [Hlt|_]; [|reflexivity].
      specialize (Habove m Hm). lia.
  - destruct (Hin _ Hlast Hfilter) as [Hm Hoff].
    rewrite (IH offset_id m Hasc Hlast).
    destruct (Z.ltb_spec (msg_id m) (msg_id x)) as [Hlt|_]; [|reflexivity].
    lia.
Qed.

Lemma incremental_run_shape w t channel offset_id lang :
  get_entity t = Ok tt -> total_messages t <> 0 -> pagination_fault t = None ->
  exists w3 ret,
    scrape_channel w t channel offset_id false lang
    = (save_state (set_cursor w3 channel
         (default offset_id
            (msg_id <$> list.last
               (processed_records (ai_client w) lang false
                  (List.filter (fun m => offset_id <? msg_id m) (history t)))))),
       ret)
    /\ ai_client w3 = ai_client w.
Proof.
  intros Hentity Htotal Hfault. unfold scrape_channel.
  rewrite Hentity. cbn [andb].
  destruct (Z.eqb_spec (total_messages t) 0) as [|_]; [contradiction|].
  unfold iter_messages_after, paginate. rewrite Hfault.
  set (ys := List.filter (fun m => offset_id <? msg_id m) (history t)) in *.
  pose proof (incremental_loop_cursor channel lang w offset_id ys)
    as (Hai & _ & Hlast & _).
  cbv zeta in Hai, Hlast.
  destruct (incremental_loop channel lang w offset_id ys) as [w1 l1].
  rewrite flush_and_download_eq. cbn [fst snd] in *.
  pose proof (run_effect_downloads channel (media_tasks l1)
                (batch_insert_messages w1 channel (message_batch l1)) ∅)
    as (Hai3 & _).
  destruct (fold_left (await_download channel) _ _) as [w3 paths].
  cbn [fst snd] in *. rewrite Hlast.
  eexists. eexists. split; [reflexivity|].
  rewrite Hai3. destruct (batch_insert_messages_frame w1 channel (message_batch l1))
    as (-> & _). exact Hai.
Qed.

(** X11. Running again changes nothing. After an incremental run that met no
    failure and skipped no record, on a channel that has messages and whose
    history is in ascending order of id, a second run started from the
    cursor the first one saved finds nothing after it: it returns the empty
    list and leaves the scraper, the store and the checkpoint file exactly
    as the first run left them. On a channel without any message the first
    run changes nothing, and a run from any cursor returns [None] and
    changes nothing either. *)
Theorem incremental_rerun_changes_nothing (w : World) (t : Transport)
    (channel : str) (offset_id : Z) (lang : option str) :
  get_entity t = Ok tt ->
  pagination_fault t = None ->
  ascending (history t) = true ->
  Forall (fun m => processable (ai_client w) lang false m = true)
         (List.filter (fun m => offset_id <? msg_id m) (history t)) ->
  let w1 := fst (scrape_channel w t channel offset_id false lang) in
  (total_messages t <> 0 ->
     exists cursor,
       channels (state w1) !! channel = Some cursor
       /\ scrape_channel w1 t channel cursor false lang = (w1, RetList []))
  /\ (total_messages t = 0 ->
      w1 = w
      /\ forall cursor,
           scrape_channel w1 t channel cursor false lang = (w1, RetNone)).
Proof.
  intros Hentity Hfault Hasc Hall w1. subst w1. split.
  - intros Htotal.
    destruct (incremental_run_shape w t channel offset_id lang Hentity Htotal Hfault)
      as (w3 & ret & Hrun & Hai).
    rewrite Hrun. cbn [fst].
    set (ys := List.filter (fun m => offset_id <? msg_id m) (history t)) in *.
    assert (Hps : processed_records (ai_client w) lang false ys = ys).
    { apply filter_all_true. exact (proj1 (List.Forall_forall _ _) Hall). }
    rewrite Hps in *.
    set (cursor := default offset_id (msg_id <$> list.last ys)) in *.
    exists cursor. split; [simpl; apply lookup_insert_eq|].
    assert (Hnone : List.filter (fun m => cursor <? msg_id m) (history t) = []).
    { subst cursor. destruct (list.last ys) as [m|] eqn:Hlast; simpl.
      - exact (filter_after_last _ _ _ Hasc Hlast).
      - assert (ys = []) as Hys.
        { destruct ys as [|y ys'] eqn:E; [reflexivity|].
          assert (is_Some (list.last (y :: ys'))) as [z Hz]
            by (apply last_is_Some; discriminate).
          rewrite Hz in Hlast. discriminate Hlast. }
        exact Hys. }
    unfold scrape_channel. rewrite Hentity. cbn [andb].
    destruct (Z.eqb_spec (total_messages t) 0) as [|_]; [contradiction|].
    unfold iter_messages_after, paginate. rewrite Hfault, Hnone.
    unfold incremental_loop. cbn [fold_left].
    rewrite flush_and_download_eq. cbn.
    f_equal. unfold save_state, set_cursor, set_channels. cbn.
    rewrite insert_insert_eq. reflexivity.
  - intros Htotal.
    assert (Hrun : forall cursor,
               scrape_channel w t channel cursor false lang = (w, RetNone)).
    { intros cursor. unfold scrape_channel. rewrite Hentity. cbn [andb].
      rewrite Htotal. reflexivity. }
    rewrite Hrun. cbn [fst]. split; [reflexivity | exact Hrun].
Qed.

Lemma incremental_rerun_changes_nothing_witness :
  scrape_channel (fst (scrape_channel fresh_scraper sixty_messages channel_c 0
                         false None))
    sixty_messages channel_c 60 false None
  = (fst (scrape_channel fresh_scraper sixty_messages channel_c 0 false None),
     RetList [])
  /\ scrape_channel limited_scraper emptied_channel channel_c 100 false None
     = (limited_scraper, RetNone).
Proof.
  split.
  - destruct (proj1 (incremental_rerun_changes_nothing fresh_scraper
                       sixty_messages channel_c 0 None eq_refl eq_refl eq_refl
                       ltac:(vm_compute; repeat constructor))
                ltac:(discriminate))
      as (cursor & Hcursor & Hrun).
    assert (cursor = 60) as -> by (vm_compute in Hcursor; congruence).
    exact Hrun.
  - destruct (proj2 (incremental_rerun_changes_nothing limited_scraper
                       emptied_channel channel_c 0 None eq_refl eq_refl eq_refl
                       ltac:(vm_compute; repeat constructor))
                eq_refl)
      as (Hsame & Hrun).
    rewrite Hsame in Hrun. exact (Hrun 100).
Defined.

(** ** The repair passes *)

Lemma await_task_updates channel w m :
  exists ups,
    table (fst (await_task channel w m)) channel = apply_updates ups (table w channel)
    /\ Forall (fun ip => fst ip = msg_id m) ups
    /\ state (fst (await_task channel w m)) = state w
    /\ state_file (fst (await_task channel w m)) = state_file w
    /\ forall c, c <> channel -> table (fst (await_task channel w m)) c = table w c.
Proof.
  unfold await_task.
  destruct (download_media _ _ _ _) as [[[p|] ev] files]; simpl.
  - destruct (truthy p); simpl.
    + exists [(msg_id m, p)]. unfold update_media_path.
      rewrite table_set_table. repeat split.
      * constructor; [reflexivity | constructor].
      * intros c Hc. rewrite table_set_table_ne by congruence. reflexivity.
    + exists []. repeat split. constructor.
  - exists []. repeat split. constructor.
Qed.

Lemma repair_fold_updates channel tasks : forall w,
  let w' := fold_left (fun w m => fst (await_task channel w m)) tasks w in
  exists ups,
    table w' channel = apply_updates ups (table w channel)
    /\ Forall (fun ip => In (fst ip) (map msg_id tasks)) ups
    /\ state w' = state w
    /\ state_file w' = state_file w
    /\ forall c, c <> channel -> table w' c = table w c.
Proof.
  induction tasks as [|m tasks IH]; intros w; cbv zeta.
  - exists []. repeat split. constructor.
  - simpl fold_left.
    destruct (await_task_updates channel w m) as (u1 & Ht1 & Hu1 & Hs1 & Hf1 & Ho1).
    destruct (IH (fst (await_task channel w m))) as (u2 & Ht2 & Hu2 & Hs2 & Hf2 & Ho2).
    exists (u1 ++ u2). split; [|split; [|split; [|split]]].
    + rewrite Ht2, Ht1. unfold apply_updates. rewrite fold_left_app. reflexivity.
    + apply Forall_app. split.
      * eapply List.Forall_impl; [|exact Hu1]. intros ip ->. left. reflexivity.
      * eapply List.Forall_impl; [|exact Hu2]. intros ip Hip. right. exact Hip.
    + congruence.
    + congruence.
    + intros c Hc. rewrite Ho2, Ho1 by exact Hc. reflexivity.
Qed.

Lemma apply_updates_ids ups : forall t,
  map (fun r => message_id (data r)) (apply_updates ups t)
  = map (fun r => message_id (data r)) t.
Proof.
  induction ups as [|ip ups IH]; intros t; [reflexivity|].
  unfold apply_updates in *. simpl. rewrite IH.
  apply (proj1 (update_keeps_ids t (fst ip) (snd ip))).
Qed.

Lemma apply_updates_rows ups : forall t k r,
  t !! k = Some r ->
  exists r', apply_updates ups t !! k = Some r'
             /\ same_but_media_path r r'
             /\ (Forall (fun ip => fst ip <> message_id (data r)) ups -> r' = r).
Proof.
  induction ups as [|ip ups IH]; intros t k r Hk.
  - exists r. repeat split. exact Hk.
  - unfold apply_updates in *. simpl.
    assert (Hk1 : execute_update_media_path t (fst ip) (snd ip) !! k
                  = Some (update_media_path_row (fst ip) (snd ip) r)).
    { unfold execute_update_media_path. rewrite list_lookup_fmap, Hk. reflexivity. }
    destruct (IH _ _ _ Hk1) as (r' & Hk' & [Hid Hdata] & Hsame).
    destruct (same_but_media_path_update (fst ip) (snd ip) r) as [Hid1 Hdata1].
    exists r'. split; [exact Hk'|]. split; [split; congruence|].
    intros Hall. apply List.Forall_cons_iff in Hall as [Hip Hall].
    assert (Hrow : update_media_path_row (fst ip) (snd ip) r = r).
    { unfold update_media_path_row.
      destruct (Z.eqb_spec (message_id (data r)) (fst ip)); [congruence|reflexivity]. }
    rewrite Hrow in Hsame. apply Hsame. exact Hall.
Qed.

Lemma repair_tasks_selected t ids m :
  In m (omap valid_message (get_messages_by_ids t ids)) -> In (msg_id m) ids.
Proof.
  intros Hin. apply list_elem_of_In, list_elem_of_omap in Hin as (o & Ho & Hvalid).
  apply list_elem_of_In in Ho. unfold get_messages_by_ids in Ho.
  apply in_map_iff in Ho as (i & <- & Hi).
  destruct (List.find (fun m0 => msg_id m0 =? i) (history t)) as [m0|] eqn:Hfind;
    [|discriminate].
  pose proof (List.find_some _ _ Hfind) as [_ Hid%Z.eqb_eq].
  assert (m = m0) as ->.
  { unfold valid_message in Hvalid. destruct (msg_media m0) as [media|]; [|discriminate].
    destruct (is_webpage media); [discriminate|]. congruence. }
  rewrite Hid. exact Hi.
Qed.

Lemma rescrape_media_shape w t channel :
  exists tasks,
    rescrape_media w t channel
    = (fold_left (fun w m => fst (await_task channel w m)) tasks
                 (get_db_connection w channel), tasks)
    /\ forall m, In m tasks ->
         In (msg_id m) (select_missing_media (table w channel)).
Proof.
  unfold rescrape_media.
  destruct (get_db_connection_table w channel) as (Htab & _ & _).
  rewrite Htab.
  destruct (select_missing_media (table w channel)) as [|i ids] eqn:Hids.
  { exists []. split; [reflexivity | intros m []]. }
  destruct (get_entity t) as [[]|e].
  2:{ exists []. split; [reflexivity | intros m []]. }
  rewrite rescrape_batches_flat, download_batches_concat.
  eexists. split; [reflexivity|]. apply repair_tasks_selected.
Qed.

Lemma NoDup_map_inj {A B} (f : A -> B) (l : list A) x y :
  List.NoDup (map f l) -> In x l -> In y l -> f x = f y -> x = y.
Proof.
  induction l as [|a l IH]; intros Hnd Hx Hy Heq; [destruct Hx|].
  simpl in Hnd. inversion Hnd as [|? ? Ha Hl]; subst.
  destruct Hx as [<-|Hx]; destruct Hy as [<-|Hy]; try reflexivity.
  - exfalso. apply Ha. rewrite Heq. apply in_map. exact Hy.
  - exfalso. apply Ha. rewrite <- Heq. apply in_map. exact Hx.
  - apply IH; assumption.
Qed.

(** X12. The repair pass [rescrape_media] touches only what it selected. It
    leaves the state and the checkpoint file, so every cursor, as they
    were, and likewise the tables of the other channels. In the channel's
    table it adds and removes no row; a row whose id it did not select is
    left exactly as it was, and any other row changes at most in its media
    reference. When no two rows share a [message_id], every row that did
    have a media reference, or needed none, is left exactly as it was. *)
Theorem rescrape_media_touches_only_selected (w : World) (t : Transport)
    (channel : str) :
  let ids := select_missing_media (table w channel) in
  let w' := fst (rescrape_media w t channel) in
  state w' = state w
  /\ state_file w' = state_file w
  /\ (forall c, c <> channel -> table w' c = table w c)
  /\ stored_ids w' channel = stored_ids w channel
  /\ (forall k r, table w channel !! k = Some r ->
        exists r', table w' channel !! k = Some r'
                   /\ same_but_media_path r r'
                   /\ (~ In (message_id (data r)) ids -> r' = r))
  /\ (List.NoDup (stored_ids w channel) ->
      forall k r, table w channel !! k = Some r -> missing_media r = false ->
                  table w' channel !! k = Some r).
Proof.
  intros ids w'. subst w'.
  destruct (rescrape_media_shape w t channel) as (tasks & -> & Htasks).
  cbn [fst].
  destruct (get_db_connection_table w channel) as (Htab & Hst & _).
  destruct (repair_fold_updates channel tasks (get_db_connection w channel))
    as (ups & Ht & Hups & Hs & Hf & Ho).
  cbv zeta in Ht, Hs, Hf, Ho. rewrite Htab in Ht.
  assert (Hrows : forall k r, table w channel !! k = Some r ->
            exists r', apply_updates ups (table w channel) !! k = Some r'
                       /\ same_but_media_path r r'
                       /\ (~ In (message_id (data r)) ids -> r' = r)).
  { intros k r Hk.
    destruct (apply_updates_rows ups _ _ _ Hk) as (r' & Hk' & Hsame & Heq).
    exists r'. split; [exact Hk'|]. split; [exact Hsame|].
    intros Hnot. apply Heq. eapply List.Forall_impl; [|exact Hups].
    intros ip Hip Heq'. apply Hnot. rewrite <- Heq'.
    apply in_map_iff in Hip as (m & <- & Hm). apply Htasks. exact Hm. }
  split; [rewrite Hs; exact Hst|].
  split.
  { rewrite Hf. unfold get_db_connection.
    destruct (db w !! channel); reflexivity. }
  split.
  { intros c Hc. rewrite Ho by exact Hc. unfold get_db_connection.
    destruct (db w !! channel); [reflexivity|].
    apply table_set_table_ne. congruence. }
  split; [unfold stored_ids; rewrite Ht; apply apply_updates_ids|].
  rewrite Ht. split; [exact Hrows|].
  intros Hnd k r Hk Hok.
  destruct (Hrows k r Hk) as (r' & Hk' & _ & Heq).
  rewrite Hk'. f_equal. apply Heq. intros Hin.
  unfold ids, select_missing_media in Hin.
  apply in_map_iff in Hin as (r2 & Hid & Hr2).
  apply List.filter_In in Hr2 as [Hr2 Hmiss].
  assert (r2 = r) as ->; [|congruence].
  apply (NoDup_map_inj (fun r => message_id (data r)) (table w channel));
    [exact Hnd | exact Hr2 | | exact Hid].
  apply list_elem_of_In. apply list_elem_of_lookup. eauto.
Qed.

Lemma rescrape_media_touches_only_selected_witness :
  table (fst (rescrape_media
                (batch_insert_messages (scraped photo_channel_down) channel_c
                   [sample_record 1])
                photo_channel channel_c)) channel_c !! 1%nat
  = Some {| id := 2; data := sample_record 1 |}.
Proof.
  apply (proj2 (proj2 (proj2 (proj2 (proj2
           (rescrape_media_touches_only_selected
              (batch_insert_messages (scraped photo_channel_down) channel_c
                 [sample_record 1])
              photo_channel channel_c)))))).
  - vm_compute. repeat constructor; simpl; intuition discriminate.
  - reflexivity.
  - reflexivity.
Defined.

Lemma media_row_cases r :
  (has_media r = false /\ has_file r = false /\ missing_media r = false)
  \/ (has_media r = true /\ has_file r = true /\ missing_media r = false)
  \/ (has_media r = true /\ has_file r = false /\ missing_media r = true).
Proof.
  unfold has_file, has_media, missing_media.
  destruct (media_type (data r)) as [ty|]; [|left; auto].
  destruct (negb (bool_decide (ty = lit "MessageMediaWebPage")));
    [|left; destruct (media_path (data r)); auto].
  destruct (media_path (data r)); [right; left | right; right]; auto.
Qed.

Lemma media_rows_split t :
  length (List.filter has_media t)
  = (length (List.filter has_file t) + length (List.filter missing_media t))%nat.
Proof.
  induction t as [|r t IH]; [reflexivity|].
  cbn [List.filter].
  destruct (media_row_cases r) as [(-> & -> & ->) | [(-> & -> & ->) | (-> & -> & ->)]];
    cbn [length]; lia.
Qed.

Lemma missing_or_empty_named r :
  media_path (data r) <> Some [] -> missing_or_empty r = missing_media r.
Proof.
  unfold missing_or_empty, has_media, missing_media. intros Hp.
  destruct (media_type (data r)) as [ty|]; [|reflexivity].
  destruct (media_path (data r)) as [[|c p]|]; try congruence;
    simpl; rewrite ?andb_false_r, ?andb_true_r; reflexivity.
Qed.

Lemma select_missing_or_empty_ids t :
  paths_named t -> map fst (select_missing_or_empty t) = select_missing_media t.
Proof.
  unfold paths_named, select_missing_or_empty, select_missing_media.
  intros Hnamed. rewrite map_map. simpl.
  induction t as [|r t IH]; [reflexivity|].
  apply List.Forall_cons_iff in Hnamed as [Hr Ht].
  simpl. rewrite (missing_or_empty_named r Hr).
  destruct (missing_media r); simpl; rewrite (IH Ht); reflexivity.
Qed.

Lemma download_batches_map {A B} (f : A -> B) (l : list A) :
  map (map f) (download_batches l) = download_batches (map f l).
Proof.
  unfold download_batches, slice. rewrite length_map, map_map.
  apply map_ext. intros i. rewrite List.skipn_map, List.firstn_map. reflexivity.
Qed.

Lemma fold_left_map {A B C} (g : A -> C -> A) (h : B -> C) (bs : list B) :
  forall a, fold_left (fun acc b => g acc (h b)) bs a = fold_left g (map h bs) a.
Proof. induction bs as [|b bs IH]; intros a; [reflexivity | apply IH]. Qed.

(** X13. The second repair pass, [fix_missing_media], decides whether there
    is work from two counts whose difference is the number of records with a
    [NULL] media reference. So when no record has a [NULL] reference it
    returns at once and creates no task, even if its own selection, which
    also takes references that are the empty string, would not be empty. On
    a store in which no media reference is the empty string, it does exactly
    what [rescrape_media] does: the same tasks, the same world. *)
Theorem fix_missing_media_agrees (w : World) (t : Transport) (channel : str) :
  (select_missing_media (table w channel) = [] ->
   fix_missing_media w t channel = (get_db_connection w channel, []))
  /\ (paths_named (table w channel) ->
      fix_missing_media w t channel = rescrape_media w t channel).
Proof.
  unfold fix_missing_media, rescrape_media.
  destruct (get_db_connection_table w channel) as (Htab & _ & _).
  rewrite Htab. set (w0 := get_db_connection w channel).
  assert (Hcount : Z.of_nat (length (List.filter has_media (table w channel)))
                   - Z.of_nat (length (List.filter has_file (table w channel)))
                   = Z.of_nat (length (select_missing_media (table w channel)))).
  { unfold select_missing_media. rewrite length_map, media_rows_split. lia. }
  rewrite Hcount. split.
  - intros ->. reflexivity.
  - intros Hnamed.
    pose proof (select_missing_or_empty_ids _ Hnamed) as Hids.
    destruct (select_missing_media (table w channel)) as [|i ids] eqn:Hsel;
      [reflexivity|].
    cbn [length]. destruct (Z.eqb_spec (Z.of_nat (S (length ids))) 0); [lia|].
    destruct (select_missing_or_empty (table w channel)) as [|x xs] eqn:Hsel';
      [discriminate Hids|].
    destruct (get_entity t) as [[]|e]; [|reflexivity].
    rewrite (fold_left_map (rescrape_batch channel t) (map fst)).
    rewrite download_batches_map, Hids. reflexivity.
Qed.

Lemma fix_missing_media_agrees_witness :
  select_missing_or_empty (table empty_reference_scraper channel_c)
  = [(7, Some (lit "MessageMediaPhoto"))]
  /\ fix_missing_media empty_reference_scraper photo_channel channel_c
     = (get_db_connection empty_reference_scraper channel_c, []).
Proof.
  split; [reflexivity|].
  apply (proj1 (fix_missing_media_agrees empty_reference_scraper photo_channel
                  channel_c)).
  reflexivity.
Defined.

Lemma batch_insert_messages_appends_witness :
  In {| id := 2; data := sample_record 2 |}
     (table (batch_insert_messages
               (batch_insert_messages fresh_scraper channel_c [sample_record 1])
               channel_c [sample_record 1; sample_record 2]) channel_c)
  /\ (In {| id := 2; data := sample_record 2 |}
         (table (batch_insert_messages fresh_scraper channel_c [sample_record 1])
                channel_c)
      \/ (In (sample_record 2) [sample_record 1; sample_record 2]
          /\ has_message
               (table (batch_insert_messages fresh_scraper channel_c
                         [sample_record 1]) channel_c) 2 = false)).
Proof.
  assert (Hin : In {| id := 2; data := sample_record 2 |}
                   (table (batch_insert_messages
                             (batch_insert_messages fresh_scraper channel_c
                                [sample_record 1])
                             channel_c [sample_record 1; sample_record 2])
                          channel_c))
    by (vm_compute; right; left; reflexivity).
  split; [exact Hin|].
  exact (proj2 (proj2 (proj2 (batch_insert_messages_appends
                                (batch_insert_messages fresh_scraper channel_c
                                   [sample_record 1])
                                channel_c [sample_record 1; sample_record 2])))
           _ Hin).
Defined.

Lemma scrape_channel_only_appends_witness :
  exists r',
    table (fst (scrape_channel (scraped photo_channel_down) photo_channel
                  channel_c 0 false None)) channel_c !! 0%nat = Some r'
    /\ same_but_media_path
         {| id := 1;
            data := set_media_path None
                      {| message_id := 7; date := lit "2024-01-01 00:00:00";
                         sender_id := None; first_name := None;
                         last_name := None; username := None;
                         message := lit "post";
                         media_type := Some (lit "MessageMediaPhoto");
                         media_path := None; reply_to := None;
                         post_author := None; views := None; forwards := None;
                         reactions := None |} |} r'.
Proof.
  apply (proj2 (scrape_channel_only_appends (scraped photo_channel_down)
                  photo_channel channel_c 0 false None) 0%nat).
  reflexivity.
Defined.

(** ** The record normalizer *)

Lemma translate_text_prefix ai text tl r :
  translate_text ai text tl = Ok r -> text `prefix_of` r.
Proof.
  unfold translate_text. destruct ai as [cl|]; [|intros [= <-]; reflexivity].
  destruct (negb (truthy text) || (Z.of_nat (length text) <? 2));
    [intros [= <-]; reflexivity|].
  unfold try_except, request_translation.
  destruct (completions_create cl (request_lang cl tl) text)
    as [[|[content|] rest]|e]; simpl; try (intros [= <-]; reflexivity).
  destruct (truthy (strip content)); intros [= <-];
    [eexists; reflexivity | reflexivity].
Qed.

(** X14. The normalizer loses a record only to its sender: building the
    record of a message raises exactly when [get_sender] raises, with the
    same exception, and never because of the translation step. A record that
    is built carries the id of the message and no media reference, and its
    text begins with the text of the message followed by its button links;
    without a translation client, and in a force-rescrape without a target
    language, its text is exactly that. *)
Theorem make_message_data_outcome (ai : option AIClient) (lang : option str)
    (force : bool) (m : Message) :
  (forall e, make_message_data ai lang force m = Raise e
             <-> get_sender m = Raise e)
  /\ (forall d, make_message_data ai lang force m = Ok d ->
        message_id d = msg_id m
        /\ media_path d = None
        /\ (default [] (msg_message m) ++ extract_button_urls m)
             `prefix_of` message d
        /\ (ai = None \/ (force = true /\ truthy_opt lang = false) ->
            message d = default [] (msg_message m) ++ extract_button_urls m)).
Proof.
  unfold make_message_data.
  set (text := default [] (msg_message m) ++ extract_button_urls m).
  destruct (get_sender m) as [sender|e0]; cbn [bind].
  - destruct (bool_decide (is_Some ai) && truthy text
              && (negb force || truthy_opt lang)) eqn:Hcond.
    + destruct (translate_text_total ai text lang) as [r Hr].
      pose proof (translate_text_prefix _ _ _ _ Hr) as Hpre.
      rewrite Hr. cbn [bind]. split.
      * intros e. split; intros H; discriminate H.
      * intros d [= <-]. cbn.
        split; [reflexivity|]. split; [reflexivity|]. split; [exact Hpre|].
        intros [-> | [-> Hl]].
        -- discriminate Hcond.
        -- rewrite Hl in Hcond. cbn in Hcond.
           rewrite andb_false_r in Hcond. discriminate Hcond.
    + cbn [bind]. split.
      * intros e. split; intros H; discriminate H.
      * intros d [= <-]. cbn.
        split; [reflexivity|]. split; [reflexivity|]. split; [reflexivity|].
        intros _. reflexivity.
  - split.
    + intros e. split; intros [= <-]; reflexivity.
    + intros d H. discriminate H.
Qed.

Lemma make_message_data_outcome_witness :
  make_message_data (Some failing_client) None false senderless_message
  = Raise TransportError.
Proof.
  apply (proj1 (make_message_data_outcome (Some failing_client) None false
                  senderless_message)).
  reflexivity.
Defined.

(** ** Scraping by address *)

Lemma startswith_app p s : startswith (p ++ s) p = true.
Proof.
  induction p as [|c p IH]; [reflexivity|].
  cbn. rewrite N.eqb_refl. exact IH.
Qed.

Lemma full_id_prefixed s : startswith (full_id s) (lit "-100") = true.
Proof.
  unfold full_id. destruct (startswith s (lit "-100")) eqn:H; cbn [negb].
  - exact H.
  - apply startswith_app.
Qed.

(** A force-rescrape with a message limit leaves the state and the
    checkpoint file alone, and returns the processed records of the
    window. *)
Lemma scrape_channel_window w t channel offset_id lang :
  limit_set (state w) = true ->
  let window := take (Z.to_nat (default 0 (message_limit (state w))))
                     (rev (history t)) in
  let run := scrape_channel w t channel offset_id true lang in
  state (fst run) = state w
  /\ state_file (fst run) = state_file w
  /\ (get_entity t = Ok tt -> pagination_fault t = None ->
      exists returned,
        snd run = RetList returned
        /\ map message_id returned
           = map msg_id (processed_records (ai_client w) lang true window)).
Proof.
  intros Hset window run. subst run. unfold scrape_channel.
  rewrite Hset. cbn [andb].
  unfold iter_messages_newest, paginate. fold window.
  destruct (get_entity t) as [[]|e].
  2:{ simpl. split; [reflexivity|]. split; [reflexivity|].
      intros H; discriminate H. }
  destruct (pagination_fault t) as [k|].
  - pose proof (force_loop_invariant window channel lang w offset_id
                  (take k window) (Forall_take _ _ _ (in_window_all window)))
      as (Hstep & _).
    destruct Hstep as (_ & Hst & Hfile & _).
    simpl. split; [exact Hst|]. split; [exact Hfile|].
    intros _ H; discriminate H.
  - pose proof (force_loop_invariant window channel lang w offset_id
                  window (in_window_all window))
      as (Hstep & Hbatch & Htasks & _ & Hcoll).
    destruct (force_loop channel lang w offset_id window) as [w1 l1] eqn:Hloop.
    rewrite flush_and_download_eq. cbn [fst snd] in *.
    pose proof (window_step_batch_insert window channel w1 (message_batch l1) Hbatch)
      as Hflush.
    pose proof (window_step_downloads window channel (media_tasks l1)
                  (batch_insert_messages w1 channel (message_batch l1)) ∅ Htasks)
      as Hdown.
    destruct (fold_left (await_download channel) (media_tasks l1)
                (batch_insert_messages w1 channel (message_batch l1), ∅))
      as [w3 paths].
    cbn [fst snd] in *.
    pose proof (window_step_trans _ _ _ _ _ Hstep
                  (window_step_trans _ _ _ _ _ Hflush Hdown))
      as (_ & Hst & Hfile & _).
    split; [exact Hst|]. split; [exact Hfile|].
    intros _ _. eexists. split; [reflexivity|].
    rewrite attach_media_paths_ids. exact Hcoll.
Qed.

(** The helper on an address that resolves: the scraper the run starts
    from, and the run. *)
Lemma scrape_channel_by_url_resolved w names ge t url lang entity :
  ge url = Ok entity ->
  let cid := full_id (str_of_int (entity_id entity)) in
  exists w1 names1,
    (w1 = w \/ w1 = save_state (set_cursor w cid 0))
    /\ (channels (state w) !! str_of_int (entity_id entity) = None ->
        w1 = save_state (set_cursor w cid 0))
    /\ scrape_channel_by_url w names ge t url lang
       = (fst (scrape_channel w1 t cid 0 true lang), names1,
          StatusSuccess cid (snd (scrape_channel w1 t cid 0 true lang))).
Proof.
  intros Hge cid. unfold scrape_channel_by_url. rewrite Hge. fold cid.
  destruct (channels (state w) !! str_of_int (entity_id entity)) as [z|].
  - exists w, names. split; [left; reflexivity|].
    split; [intros H; discriminate H|].
    destruct (scrape_channel w t cid 0 true lang); reflexivity.
  - eexists (save_state (set_cursor w cid 0)), _.
    split; [right; reflexivity|]. split; [intros _; reflexivity|].
    destruct (scrape_channel (save_state (set_cursor w cid 0)) t cid 0 true lang);
      reflexivity.
Qed.

(** X15. [scrape_channel_by_url] on an address that does not resolve
    reports an error and changes nothing. On an address that resolves it
    always reports success, whatever the run did, under a channel id that
    begins with [-100], and it leaves the tables and cursors of all other
    channels as they were. When [str(entity.id)] is not a key of the
    channels (the keys being full ids, this is so even for a channel that is
    followed already) and a message limit is set, the cursor of the channel
    is 0 afterwards, in memory and in the checkpoint file, whatever it was
    before. *)
Theorem scrape_channel_by_url_effect (w : World) (names : ChannelNames)
    (ge : str -> result Entity) (t : Transport) (url : str)
    (lang : option str) :
  let out := scrape_channel_by_url w names ge t url lang in
  (forall e, ge url = Raise e -> out = (w, names, StatusError))
  /\ (forall entity, ge url = Ok entity ->
        let cid := full_id (str_of_int (entity_id entity)) in
        (exists messages, snd out = StatusSuccess cid messages)
        /\ startswith cid (lit "-100") = true
        /\ (forall c, c <> cid ->
              table (fst (fst out)) c = table w c
              /\ channels (state (fst (fst out))) !! c
                 = channels (state w) !! c)
        /\ (channels (state w) !! str_of_int (entity_id entity) = None ->
            limit_set (state w) = true ->
            channels (state (fst (fst out))) !! cid = Some 0
            /\ saved_cursor (fst (fst out)) cid = Some 0)).
Proof.
  intros out. subst out. split.
  - intros e He. unfold scrape_channel_by_url. rewrite He. reflexivity.
  - intros entity He cid.
    destruct (scrape_channel_by_url_resolved w names ge t url lang entity He)
      as (w1 & names1 & Hw1 & Hnew & ->).
    fold cid in Hw1, Hnew |- *. cbn [fst snd].
    split; [eexists; reflexivity|].
    split; [apply full_id_prefixed|].
    assert (Hpre : run_effect cid w w1).
    { destruct Hw1 as [-> | ->];
        [apply run_effect_refl | apply run_effect_checkpoint]. }
    split.
    + intros c Hc.
      pose proof (run_effect_trans _ _ _ _ Hpre
                    (run_effect_scrape_channel w1 t cid 0 true lang))
        as (_ & _ & _ & Hch & Hdb & _).
      split; [|apply Hch; exact Hc].
      unfold table. rewrite (Hdb c Hc). reflexivity.
    + intros Hnone Hset. specialize (Hnew Hnone). subst w1.
      destruct (scrape_channel_window (save_state (set_cursor w cid 0)) t cid
                  0 lang Hset) as (Hst & Hfile & _).
      unfold saved_cursor. rewrite Hst, Hfile. cbn.
      rewrite lookup_insert_eq. split; reflexivity.
Qed.

Lemma scrape_channel_by_url_effect_witness :
  channels (state tracked_scraper) !! lit "-100123" = Some 60
  /\ channels (state (fst (fst (scrape_channel_by_url tracked_scraper None
                                  (get_entity_url sample_client) sixty_messages
                                  (lit "https://t.me/news") None))))
       !! lit "-100123" = Some 0.
Proof.
  split; [reflexivity|].
  apply (proj2 (proj2 (proj2 (proj2 (scrape_channel_by_url_effect
           tracked_scraper None (get_entity_url sample_client) sixty_messages
           (lit "https://t.me/news") None)
           {| entity_id := 123; entity_username := Some (lit "news") |}
           eq_refl)))); reflexivity.
Defined.

(** ** The HTTP interface *)

Lemma limit_set_set_message_limit w n :
  n <> 0 -> limit_set (state (set_message_limit w n)) = true.
Proof.
  intros Hn. unfold limit_set. cbn.
  destruct (Z.eqb_spec n 0); [contradiction | reflexivity].
Qed.

(** X16. [POST /scrape] never answers 400: the exception it raises for an
    address that does not resolve is caught by its own handler and raised
    again as 500, so what it raises is 503, 401 or 500. On a connected and
    authorised scraper a request limit other than 0 replaces the message
    limit of the scraper and stays after the request, whatever its outcome;
    a request limit of 0 leaves the limit that was there. *)
Theorem scrape_endpoint_status (relpath : str -> option str)
    (scraper_instance : option Scraper) (request : ScrapeRequest) :
  let out := scrape_endpoint relpath scraper_instance request in
  (forall e, snd out = inl e ->
     e = HTTPException 503 \/ e = HTTPException 401 \/ e = HTTPException 500)
  /\ (forall s c, scraper_instance = Some s -> client s = Some c ->
        is_user_authorized c = true ->
        (forall e, get_entity_url c (req_url request) = Raise e ->
           snd out = inl (HTTPException 500))
        /\ exists s',
             fst out = Some s'
             /\ message_limit (state (world s'))
                = if req_limit request =? 0
                  then message_limit (state (world s))
                  else Some (req_limit request)).
Proof.
  intros out. subst out. unfold scrape_endpoint. split.
  - intros e.
    destruct scraper_instance as [s|]; [|intros [= <-]; auto].
    destruct (client s) as [c|]; [|intros [= <-]; auto].
    destruct (is_user_authorized c); cbn [negb]; [|intros [= <-]; auto].
    destruct (scrape_try _ _ _ _ _) as [[w1 n1] [r|r]]; cbn [snd];
      intros [= <-]; auto.
  - intros s c -> Hc Hauth. rewrite Hc, Hauth. cbn [negb].
    set (w0 := if negb (req_limit request =? 0)
               then set_message_limit (world s) (req_limit request)
               else world s).
    assert (Hw0 : message_limit (state w0)
                  = if req_limit request =? 0
                    then message_limit (state (world s))
                    else Some (req_limit request)).
    { subst w0. destruct (req_limit request =? 0); reflexivity. }
    unfold scrape_try.
    destruct (get_entity_url c (req_url request)) as [entity|e0] eqn:Hge.
    + destruct (scrape_channel_by_url_resolved w0 (channel_names s)
                  (get_entity_url c) (channel_transport c) (req_url request)
                  (req_lang request) entity Hge)
        as (w1 & names1 & Hw1 & _ & ->).
      set (cid := full_id (str_of_int (entity_id entity))) in *.
      assert (Hpre : run_effect cid w0 w1).
      { destruct Hw1 as [-> | ->];
          [apply run_effect_refl | apply run_effect_checkpoint]. }
      pose proof (run_effect_trans _ _ _ _ Hpre
                    (run_effect_scrape_channel w1 (channel_transport c) cid 0
                       true (req_lang request)))
        as (_ & _ & Hlim & _).
      split; [intros e H; discriminate H|].
      destruct (scrape_channel w1 (channel_transport c) cid 0 true
                  (req_lang request)) as [w2 [|msgs]];
        cbn [fst snd] in *; eexists; (split; [reflexivity|]);
        cbn [world]; rewrite Hlim; exact Hw0.
    + unfold scrape_channel_by_url. rewrite Hge.
      split; [intros e _; reflexivity|].
      eexists. split; [reflexivity|]. exact Hw0.
Qed.

Lemma scrape_endpoint_status_witness :
  exists s',
    fst (scrape_endpoint (fun p => Some p) (Some sample_service) sample_request)
    = Some s'
    /\ message_limit (state (world s')) = Some 3.
Proof.
  exact (proj2 (proj2 (scrape_endpoint_status (fun p => Some p)
                         (Some sample_service) sample_request)
                  sample_service sample_client eq_refl eq_refl eq_refl)).
Defined.

(** X17. On a connected and authorised scraper, a request with a limit
    other than 0 for an address that resolves, to a channel that can be read
    without a failure, is answered with the channel's full id and with the
    records of the newest [limit] messages that could be processed, oldest
    first: the reverse of the order in which they were fetched. *)
Theorem scrape_endpoint_oldest_first (relpath : str -> option str)
    (s : Scraper) (c : Client) (request : ScrapeRequest) (entity : Entity) :
  client s = Some c ->
  is_user_authorized c = true ->
  req_limit request <> 0 ->
  get_entity_url c (req_url request) = Ok entity ->
  get_entity (channel_transport c) = Ok tt ->
  pagination_fault (channel_transport c) = None ->
  let window := take (Z.to_nat (req_limit request))
                     (rev (history (channel_transport c))) in
  exists s' msgs,
    scrape_endpoint relpath (Some s) request
    = (Some s', inr (full_id (str_of_int (entity_id entity)), msgs))
    /\ map clean_message_id msgs
       = rev (map msg_id (processed_records (ai_client (world s))
                            (req_lang request) true window)).
Proof.
  intros Hc Hauth Hlimit Hge Hent Hpag window.
  unfold scrape_endpoint. rewrite Hc, Hauth. cbn [negb].
  destruct (Z.eqb_spec (req_limit request) 0) as [|_]; [contradiction|].
  cbn [negb]. unfold scrape_try.
  set (w0 := set_message_limit (world s) (req_limit request)).
  destruct (scrape_channel_by_url_resolved w0 (channel_names s)
              (get_entity_url c) (channel_transport c) (req_url request)
              (req_lang request) entity Hge)
    as (w1 & names1 & Hw1 & _ & ->).
  set (cid := full_id (str_of_int (entity_id entity))) in *.
  assert (Hsame : ai_client w1 = ai_client (world s)
                  /\ message_limit (state w1) = Some (req_limit request)).
  { destruct Hw1 as [-> | ->]; split; reflexivity. }
  destruct Hsame as [Hai Hlim].
  assert (Hset : limit_set (state w1) = true).
  { unfold limit_set. rewrite Hlim.
    destruct (Z.eqb_spec (req_limit request) 0); [contradiction | reflexivity]. }
  destruct (scrape_channel_window w1 (channel_transport c) cid 0
              (req_lang request) Hset)
    as (_ & _ & Hret).
  destruct (Hret Hent Hpag) as (returned & Hsnd & Hids).
  rewrite Hlim, Hai in Hids.
  change (default 0 (Some (req_limit request))) with (req_limit request) in Hids.
  fold window in Hids.
  destruct (scrape_channel w1 (channel_transport c) cid 0 true
              (req_lang request)) as [w2 ret].
  cbn [fst snd] in *. subst ret.
  eexists _, _. split; [reflexivity|].
  rewrite <- Hids, <- !map_rev, map_map. reflexivity.
Qed.

Lemma scrape_endpoint_oldest_first_witness :
  exists s' msgs,
    scrape_endpoint (fun p => Some p) (Some sample_service) sample_request
    = (Some s', inr (lit "-100123", msgs))
    /\ map clean_message_id msgs = [58; 59; 60].
Proof.
  apply (scrape_endpoint_oldest_first (fun p => Some p) sample_service
           sample_client sample_request
           {| entity_id := 123; entity_username := Some (lit "news") |});
    [reflexivity | reflexivity | discriminate | reflexivity | reflexivity
    | reflexivity].
Defined.

(** ** Choosing channels *)

Lemma split_on_length sep s :
  length (split_on sep s)
  = S (length (List.filter (fun c => (c =? sep)%N) s)).
Proof.
  induction s as [|c s IH]; [reflexivity|].
  cbn [split_on List.filter].
  destruct (c =? sep)%N; cbn [length]; [rewrite IH; reflexivity|].
  destruct (split_on sep s) as [|part parts]; [discriminate IH|].
  exact IH.
Qed.

Lemma select_channel_tracked int s channels_list selection c :
  (forall c, c ∈ channels_list -> is_Some (channels s !! c)) ->
  select_channel int s channels_list selection = Some c ->
  is_Some (channels s !! c).
Proof.
  intros Hkeys. unfold select_channel.
  destruct (startswith selection (lit "-")).
  - destruct (bool_decide_reflect (is_Some (channels s !! selection)))
      as [Hin|]; [|discriminate].
    intros [= <-]. exact Hin.
  - destruct (int selection) as [num|]; [|discriminate].
    destruct ((1 <=? num) && (num <=? Z.of_nat (length channels_list)));
      [|discriminate].
    intros Hlook. apply Hkeys. eapply list_elem_of_lookup_2. exact Hlook.
Qed.

(** X18. [parse_channel_selection] never selects a channel that is not
    followed: whatever the entries of the choice (numbers, ids, anything
    else), every channel it returns is a key of the channels. The choice
    [all], in any case of letters, returns the whole list; any other choice
    returns at most one channel per comma-separated entry. *)
Theorem parse_channel_selection_sound (lower : str -> str)
    (int : str -> option Z) (s : ScraperState) (channels_list : list str)
    (choice : str) :
  (forall c, c ∈ channels_list -> is_Some (channels s !! c)) ->
  let selected := parse_channel_selection lower int s channels_list choice in
  Forall (fun c => is_Some (channels s !! c)) selected
  /\ (lower choice = lit "all" -> selected = channels_list)
  /\ (lower choice <> lit "all" ->
      (length selected
       <= S (length (List.filter (fun c => (c =? 44)%N) choice)))%nat).
Proof.
  intros Hkeys selected. subst selected. unfold parse_channel_selection.
  destruct (bool_decide_reflect (lower choice = lit "all")) as [Hall|Hnot].
  - split; [|split].
    + apply List.Forall_forall. intros c Hc. apply Hkeys.
      apply list_elem_of_In. exact Hc.
    + intros _. reflexivity.
    + intros H. contradiction.
  - split; [|split].
    + apply List.Forall_forall. intros c Hc.
      apply list_elem_of_In in Hc. apply list_elem_of_omap in Hc.
      destruct Hc as (selection & _ & Hsel).
      eapply select_channel_tracked; eassumption.
    + intros H. contradiction.
    + intros _. rewrite <- split_on_length.
      etransitivity; [apply length_omap_le|].
      rewrite length_map. reflexivity.
Qed.

Lemma parse_channel_selection_sound_witness :
  Forall (fun c => is_Some (channels (state tracked_scraper) !! c))
         (parse_channel_selection (fun s => s) (fun _ => Some 1)
            (state tracked_scraper) [lit "-100123"] (lit "1,-100123,7")).
Proof.
  apply (proj1 (parse_channel_selection_sound (fun s => s) (fun _ => Some 1)
                  (state tracked_scraper) [lit "-100123"] (lit "1,-100123,7")
                  ltac:(intros c Hc; apply list_elem_of_singleton in Hc;
                        subst c; eexists; reflexivity))).
Defined.
